(** * node-api-demo: the user health data server

    A shallow embedding of the two source files of the repository,
    [src/index.js] and [src/unnamed/part_000], and the properties of their
    route handlers.  Both files register the same routes on one in-memory
    list [healthData.users]; [part_000] is the commented variant whose
    handlers [return] after every response and whose update handler
    carries the user-name check.  The greeting route [/] touches neither
    the list nor a request and is left out.

    Modelling conventions:
    - a [string] holds the UTF-8 bytes of the JavaScript string;
    - an object has its own enumerable data properties, a finite map from
      property names to values, and a prototype.  The objects that
      [bodyParser.json()] and the literals of the source build have the
      prototype [Object.prototype]; an assignment to the property
      [__proto__] can replace it.  Property order plays no role in any
      handler;
    - numbers are the integers among the doubles, the two infinities and
      [NaN]; a fraction cannot be written, and the sign of zero is not
      kept;
    - every [req.body] is a fresh object, so no two entries of the list
      share a reference and the first index found by [find] stands for the
      reference it returns.  The body is a JSON object, empty when the
      request carries none; a JSON array as body is not covered;
    - a handler is a function from the list and the request to the new list
      and the response object [res], which records every [send]/[json] call
      in order. *)

From Stdlib Require Import ZArith Ascii.
From stdpp Require Import gmap strings list fin_maps.

#[local] Set Warnings "-register-all".

(** ** JavaScript values *)

Inductive value : Type :=
  | Undefined
  | Null
  | Bool (b : bool)
  | NaN
  | Infinity (negative : bool)
  | Number (n : Z)
  | Str (s : string)
  | Array (items : list value)
  | Object (fields : list (string * value)).

(** The own properties of a top-level object: of a request body, of a
    directory entry, of an error literal. *)
Abbreviation obj := (gmap string value).

(** The [[Prototype]] slot.  It starts as [Object.prototype]; the setter of
    [__proto__] can make it [null], or an object or array that came in a
    request body. *)
Inductive prototype : Type :=
  | ObjectPrototype
  | NullPrototype
  | ProtoValue (v : value).

Record object : Type := mkObject {
  own : obj;
  proto : prototype
}.

(** The object that the JSON parser, or an object literal, builds from
    its properties. *)
Definition new_object (props : obj) : object := mkObject props ObjectPrototype.

#[global] Instance object_inhabited : Inhabited object :=
  populate (new_object ∅).

(** The property [k] of an object nested in a value; of two fields with
    one name the parser keeps the later. *)
Fixpoint field (k : string) (fields : list (string * value)) : option value :=
  match fields with
  | [] => None
  | (k', v) :: rest =>
      match field k rest with
      | Some w => Some w
      | None => if String.eqb k k' then Some v else None
      end
  end.

(** [o.k] for the names the handlers read, [id] and [name]: the own
    property, else the property of the prototype when that is an object
    from a request body.  [Object.prototype] and [Array.prototype] have
    neither name. *)
Definition get (o : object) (k : string) : value :=
  match own o !! k with
  | Some v => v
  | None =>
      match proto o with
      | ProtoValue (Object fields) => default Undefined (field k fields)
      | _ => Undefined
      end
  end.

(** ToBoolean, as applied by [!x], [x && y] and [if (x)]. *)
Definition ToBoolean (v : value) : bool :=
  match v with
  | Undefined | Null | NaN => false
  | Bool b => b
  | Infinity _ => true
  | Number n => negb (n =? 0)%Z
  | Str s => negb (String.eqb s "")
  | Array _ | Object _ => true
  end.

(** [a === b].  Arrays and objects are equal only to themselves; the
    handlers compare a number with a property, or a property of the fresh
    request body with a stored one, so two array or object operands never
    are the same reference. *)
Definition strict_eq (a b : value) : bool :=
  match a, b with
  | Undefined, Undefined => true
  | Null, Null => true
  | Bool x, Bool y => Bool.eqb x y
  | Infinity x, Infinity y => Bool.eqb x y
  | Number x, Number y => (x =? y)%Z
  | Str x, Str y => String.eqb x y
  | _, _ => false
  end.

Definition strict_neq (a b : value) : bool := negb (strict_eq a b).

(** ** Object.assign *)

(** Whether the assignment [o.__proto__ = v] finds a data property on its
    way up the prototype chain, or the end of the chain, before it finds
    the accessor of [Object.prototype]: [o] has the own property, or its
    prototype is [null], or its prototype is a parsed object with a field
    of that name. *)
Definition proto_is_data (o : object) : bool :=
  match own o !! "__proto__" with
  | Some _ => true
  | None =>
      match proto o with
      | NullPrototype => true
      | ProtoValue (Object fields) =>
          bool_decide (is_Some (field "__proto__" fields))
      | _ => false
      end
  end.

(** The setter of [Object.prototype.__proto__]: an object, an array or
    [null] becomes the prototype, any other value is ignored. *)
Definition set_prototype (v : value) (o : object) : object :=
  match v with
  | Null => mkObject (own o) NullPrototype
  | Array _ | Object _ => mkObject (own o) (ProtoValue v)
  | _ => o
  end.

(** [o[k] = v].  Every name but [__proto__] is written as an own property:
    a data property up the chain is writable and no other accessor exists.
    [__proto__] is written as an own property when [proto_is_data], and
    goes to the setter otherwise. *)
Definition Set_property (k : string) (v : value) (o : object) : object :=
  if String.eqb k "__proto__" && negb (proto_is_data o)
  then set_prototype v o
  else mkObject (<[k := v]> (own o)) (proto o).

(** [Object.assign(target, source)]: every own property of [source] is
    assigned to [target]; the result is the new state of [target]. *)
Definition Object_assign (target source : object) : object :=
  map_fold Set_property target (own source).

(** ** parseInt(string), radix undefined *)

(** The white space of one byte: TAB, LF, VT, FF, CR and SP. *)
Definition is_white_space (c : ascii) : bool :=
  let n := nat_of_ascii c in
  (n =? 9) || (n =? 10) || (n =? 11) || (n =? 12) || (n =? 13) || (n =? 32).

(** The white space of two bytes: U+00A0. *)
Definition is_white_space2 (c1 c2 : ascii) : bool :=
  (nat_of_ascii c1 =? 194) && (nat_of_ascii c2 =? 160).

(** The white space of three bytes: U+1680, U+2000 to U+200A, U+2028,
    U+2029, U+202F, U+205F, U+3000 and U+FEFF. *)
Definition is_white_space3 (c1 c2 c3 : ascii) : bool :=
  let n1 := nat_of_ascii c1 in
  let n2 := nat_of_ascii c2 in
  let n3 := nat_of_ascii c3 in
  ((n1 =? 225) && (n2 =? 154) && (n3 =? 128))
  || ((n1 =? 226) && (n2 =? 128)
      && (((128 <=? n3) && (n3 <=? 138)) || (n3 =? 168) || (n3 =? 169)
          || (n3 =? 175)))
  || ((n1 =? 226) && (n2 =? 129) && (n3 =? 159))
  || ((n1 =? 227) && (n2 =? 128) && (n3 =? 128))
  || ((n1 =? 239) && (n2 =? 187) && (n3 =? 191)).

Fixpoint trim_start (s : string) : string :=
  match s with
  | String c1 r1 =>
      if is_white_space c1 then trim_start r1
      else
        match r1 with
        | String c2 r2 =>
            if is_white_space2 c1 c2 then trim_start r2
            else
              match r2 with
              | String c3 r3 =>
                  if is_white_space3 c1 c2 c3 then trim_start r3 else s
              | EmptyString => s
              end
        | EmptyString => s
        end
  | EmptyString => s
  end.

Definition digit_value (c : ascii) : option Z :=
  let n := Z.of_nat (nat_of_ascii c) in
  if (48 <=? n)%Z && (n <=? 57)%Z then Some (n - 48)%Z
  else if (97 <=? n)%Z && (n <=? 122)%Z then Some (n - 87)%Z
  else if (65 <=? n)%Z && (n <=? 90)%Z then Some (n - 55)%Z
  else None.

Definition radix_digit (R : Z) (c : ascii) : option Z :=
  match digit_value c with
  | Some d => if (d <? R)%Z then Some d else None
  | None => None
  end.

(** The longest prefix of [s] made of radix-[R] digits. *)
Fixpoint digits (R : Z) (s : string) : list Z :=
  match s with
  | String c r =>
      match radix_digit R c with
      | Some d => d :: digits R r
      | None => []
      end
  | EmptyString => []
  end.

Definition mathInt (R : Z) (ds : list Z) : Z :=
  fold_left (λ acc d, acc * R + d)%Z ds 0%Z.

(** A leading [-] or [+] is removed and gives the sign. *)
Definition strip_sign (s : string) : Z * string :=
  match s with
  | String "-"%char r => ((-1)%Z, r)
  | String "+"%char r => (1%Z, r)
  | _ => (1%Z, s)
  end.

(** A leading [0x] or [0X] is removed and selects radix 16. *)
Definition strip_prefix (s : string) : Z * string :=
  match s with
  | String "0"%char (String "x"%char r) => (16%Z, r)
  | String "0"%char (String "X"%char r) => (16%Z, r)
  | _ => (10%Z, s)
  end.

(** The Number value of an integer: the integer itself below 2^53, beyond
    that the nearest multiple of the spacing of the doubles at its size,
    a tie going to the even one, and an infinity from 2^1024 on.  This is
    the rounding of V8, the engine of Node; ECMAScript leaves an engine
    free to read the decimal digits past the twentieth as zeros. *)
Definition round_double (z : Z) : value :=
  let a := Z.abs z in
  if (a <? 2 ^ 53)%Z then Number z
  else
    let e := (Z.log2 a - 52)%Z in
    let q := (a / 2 ^ e)%Z in
    let r := (a mod 2 ^ e)%Z in
    let half := (2 ^ (e - 1))%Z in
    let q :=
      if (r <? half)%Z then q
      else if (half <? r)%Z then (q + 1)%Z
      else if Z.even q then q else (q + 1)%Z in
    let m := (q * 2 ^ e)%Z in
    if (2 ^ 1024 <=? m)%Z then Infinity (z <? 0)%Z
    else Number (Z.sgn z * m).

(** The input, past white space and sign, starts with a decimal digit. *)
Definition starts_numeric (s : string) : bool :=
  match (strip_sign (trim_start s)).2 with
  | String c _ => bool_decide (is_Some (radix_digit 10 c))
  | EmptyString => false
  end.

Definition parseInt (s : string) : value :=
  let '(sign, s1) := strip_sign (trim_start s) in
  let '(R, s2) := strip_prefix s1 in
  match digits R s2 with
  | [] => NaN
  | ds => round_double (sign * mathInt R ds)
  end.

(** ** The response object *)

(** What [send] is given, as [JSON.stringify] sees it: of an object its
    own properties. *)
Inductive payload : Type :=
  | PUndefined
  | PObject (o : obj)
  | PArray (l : list obj).

(** [statusCode] starts at 200; [sends] lists the calls of [send] and
    [json] with the status each was made under. *)
Record response : Type := mkResponse {
  statusCode : nat;
  sends : list (nat * payload)
}.

Definition res0 : response := mkResponse 200 [].

(** [res.m(x)] is written [res |> m x], so that a chain of calls reads in
    the order of the source. *)
Notation "res |> call" := (call res)
  (at level 45, left associativity, only parsing).

Definition status (code : nat) (res : response) : response :=
  mkResponse code (sends res).

Definition send (p : payload) (res : response) : response :=
  mkResponse (statusCode res) (sends res ++ [(statusCode res, p)]).

Definition json (p : payload) (res : response) : response := send p res.

(** What the client receives: the first call ends the response. *)
Definition delivered (res : response) : option (nat * payload) :=
  head (sends res).

Definition error (msg : string) : payload :=
  PObject {[ "error" := Str msg ]}.

(** ** The directory *)

(** [body] holds the properties of the object [req.body]. *)
Record request : Type := mkRequest {
  params_id : string;
  body : obj
}.

Definition healthData : list object :=
  [ new_object
      {[ "id" := Number 1; "name" := Str "John Doe"; "age" := Number 30;
         "weight" := Number 75; "height" := Number 180 ]} ].

(** [users.find((u) => u.id === userId)], with the index of the element
    found. *)
Definition find (userId : value) (users : list object)
  : option (nat * object) :=
  list_find (λ u, Is_true (strict_eq (get u "id") userId)) users.

(** The argument of [send] for the result of [find]. *)
Definition found_payload (user : option (nat * object)) : payload :=
  match user with
  | Some (_, u) => PObject (own u)
  | None => PUndefined
  end.

(** [app.get('/users')], the same in both files. *)
Definition get_users (users : list object) (req : request)
  : list object * response :=
  (users, res0 |> send (PArray (own <$> users))).

(** [app.post('/users')], the same in both files. *)
Definition post_users (users : list object) (req : request)
  : list object * response :=
  let newUser := new_object (body req) in
  let users := users ++ [newUser] in
  (users, res0 |> status 201 |> send (PObject (own newUser))).

(** ** src/index.js *)
Module index_js.

(** [app.get('/users/:id')]: the 404 branch does not return, the
    statement after it runs in both cases. *)
Definition get_users_id (users : list object) (req : request)
  : list object * response :=
  let userId := parseInt (params_id req) in
  let user := find userId users in
  let res :=
    if user is None then res0 |> status 404 |> json (error "User not found")
    else res0 in
  (users, res |> status 200 |> send (found_payload user)).

(** [app.put('/users/:id')]: no check before the merge, and [send]
    under the initial status. *)
Definition put_users_id (users : list object) (req : request)
  : list object * response :=
  let userId := parseInt (params_id req) in
  match find userId users with
  | None => (users, res0 |> status 404 |> json (error "User not found"))
  | Some (i, user) =>
      let updatedUser := new_object (body req) in
      let user := Object_assign user updatedUser in
      (<[i := user]> users, res0 |> send (PObject (own user)))
  end.

End index_js.

(** ** src/unnamed/part_000 *)
Module part_000.

(** [app.get('/users/:id')] *)
Definition get_users_id (users : list object) (req : request)
  : list object * response :=
  let userId := parseInt (params_id req) in
  match find userId users with
  | None => (users, res0 |> status 404 |> json (error "User not found"))
  | Some (_, user) =>
      (users, res0 |> status 200 |> send (PObject (own user)))
  end.

(** [app.put('/users/:id')] *)
Definition put_users_id (users : list object) (req : request)
  : list object * response :=
  let userId := parseInt (params_id req) in
  match find userId users with
  | None => (users, res0 |> status 404 |> json (error "User not found"))
  | Some (i, user) =>
      let updatedUser := new_object (body req) in
      if ToBoolean (get updatedUser "name")
         && strict_neq (get updatedUser "name") (get user "name")
      then
        (users,
         res0 |> status 400 |> json (error "User name cannot be changed"))
      else
        let user := Object_assign user updatedUser in
        (<[i := user]> users,
         res0 |> status 200 |> send (PObject (own user)))
  end.

End part_000.

(** The status the client receives. *)
Definition status_of (res : response) : option nat := fst <$> delivered res.

(** ** The search, in the words of the specification *)

(** The record [u] carries the identifier [userId]. *)
Definition id_is (userId : value) (u : object) : Prop :=
  Is_true (strict_eq (get u "id") userId).

(** [u], at position [i], is the first record of [users] with that
    identifier. *)
Definition first_with_id (users : list object) (userId : value)
    (i : nat) (u : object) : Prop :=
  users !! i = Some u ∧ id_is userId u ∧
  ∀ j v, users !! j = Some v → j < i → ¬ id_is userId v.

Definition no_user_with_id (users : list object) (userId : value) : Prop :=
  ∀ j v, users !! j = Some v → ¬ id_is userId v.

(** ** Numerals, in the words of the specification *)

(** The white space code points of ECMAScript: the characters that
    [parseInt] skips before the number. *)
Definition white_space_code_points : list N :=
  [ 0x9; 0xA; 0xB; 0xC; 0xD; 0x20; 0xA0; 0x1680;
    0x2000; 0x2001; 0x2002; 0x2003; 0x2004; 0x2005; 0x2006; 0x2007;
    0x2008; 0x2009; 0x200A; 0x2028; 0x2029; 0x202F; 0x205F; 0x3000;
    0xFEFF ]%N.

(** UTF-8, for the code points of up to three bytes. *)
Definition utf8 (cp : N) : string :=
  let byte (n : N) := String (ascii_of_N n) "" in
  if (cp <? 0x80)%N then byte cp
  else if (cp <? 0x800)%N then
    byte (0xC0 + cp / 64)%N +:+ byte (0x80 + cp mod 64)%N
  else
    byte (0xE0 + cp / 4096)%N +:+ byte (0x80 + (cp / 64) mod 64)%N
    +:+ byte (0x80 + cp mod 64)%N.

Definition utf8_string (cps : list N) : string :=
  foldr (λ cp s, utf8 cp +:+ s) "" cps.

(** The character of a digit: [0] to [9], then the letters from [a], or
    from [A] when [upper]. *)
Definition digit_char (d : nat * bool) : ascii :=
  let '(n, upper) := d in
  if n <? 10 then ascii_of_nat (48 + n)
  else if upper then ascii_of_nat (55 + n) else ascii_of_nat (87 + n).

Definition numeral (ds : list (nat * bool)) : string :=
  foldr (λ d s, String (digit_char d) s) "" ds.

(** The integer that the digits denote in radix [R]: each digit times the
    power of [R] of its place. *)
Fixpoint positional (R : Z) (ds : list (nat * bool)) : Z :=
  match ds with
  | [] => 0
  | d :: ds => Z.of_nat d.1 * R ^ Z.of_nat (length ds) + positional R ds
  end.

(** The text of a sign: none, [+] or [-]. *)
Definition sign_text (sign : option bool) : string :=
  match sign with
  | None => ""
  | Some false => "+"
  | Some true => "-"
  end.

Definition sign_factor (sign : option bool) : Z :=
  match sign with
  | Some true => -1
  | _ => 1
  end.

(** The rest of the input after the number: nothing, or text that starts
    with a character other than a letter or a digit. *)
Definition ends_number (rest : string) : Prop :=
  match rest with
  | EmptyString => True
  | String c _ => digit_value c = None
  end.

(** ** The update, in the words of the claims *)

(** The test of line 255 of [part_000]:
    [updatedUser.name && updatedUser.name !== user.name]. *)
Definition name_differs (updatedUser user : object) : bool :=
  ToBoolean (get updatedUser "name")
  && strict_neq (get updatedUser "name") (get user "name").


(** C10 as it is worded, for an update handler [put] and a fetch handler
    [get] of the same file: whenever a record matches and the body holds an
    id, the record then carries the body's id, and fetching the path id
    again is answered with the 404 error, provided no other record
    carries the path id. *)
Definition id_unprotected
    (put get : list object → request → list object * response)
    (users : list object) (req : request) : Prop :=
  let userId := parseInt (params_id req) in
  ∀ i u v,
    first_with_id users userId i u →
    body req !! "id" = Some v →
    (∀ j w, j ≠ i → users !! j = Some w → ¬ id_is userId w) →
    let users' := (put users req).1 in
    (∃ u', users' !! i = Some u' ∧ own u' !! "id" = Some v)
    ∧ delivered (get users' req).2 = Some (404, error "User not found").


(** ** The application *)

(** The routes that [app] registers on the directory. *)
Inductive route : Type :=
  | GET_users
  | GET_users_id
  | POST_users
  | PUT_users_id.

Definition is_POST (r : route) : bool :=
  match r with POST_users => true | _ => false end.

Definition is_GET (r : route) : bool :=
  match r with GET_users | GET_users_id => true | _ => false end.

Definition is_PUT (r : route) : bool :=
  match r with PUT_users_id => true | _ => false end.

(** The handler each file registers for a route. *)
Definition index_js_app (r : route)
  : list object → request → list object * response :=
  match r with
  | GET_users => get_users
  | GET_users_id => index_js.get_users_id
  | POST_users => post_users
  | PUT_users_id => index_js.put_users_id
  end.

Definition part_000_app (r : route)
  : list object → request → list object * response :=
  match r with
  | GET_users => get_users
  | GET_users_id => part_000.get_users_id
  | POST_users => post_users
  | PUT_users_id => part_000.put_users_id
  end.

(** The requests that reach the handlers are served one after the other,
    each handler running to its end on the list the one before left: the
    final list and the responses in order. *)
Fixpoint serve (app : route → list object → request → list object * response)
    (users : list object) (calls : list (route * request))
  : list object * list response :=
  match calls with
  | [] => (users, [])
  | (r, req) :: calls =>
      let '(users, res) := app r users req in
      let '(users, ress) := serve app users calls in
      (users, res :: ress)
  end.

(** ** Relations between the directory before and after *)

(** Every record of [users] is still at its position in [users'], and is
    related to the record it was by [R]. *)
Definition keeps_records (R : object → object → Prop)
    (users users' : list object) : Prop :=
  ∀ j u, users !! j = Some u → ∃ u', users' !! j = Some u' ∧ R u u'.

(** The id is a number: an integer or an infinity. *)
Definition has_number_id (u : object) : Prop :=
  (∃ n, get u "id" = Number n) ∨ (∃ b, get u "id" = Infinity b).

(** A record without a number as id is the record it was. *)
Definition same_unless_number_id (u u' : object) : Prop :=
  ¬ has_number_id u → u' = u.

(** The name is the one it was, or a falsy value. *)
Definition name_kept_or_falsy (u u' : object) : Prop :=
  get u' "name" = get u "name" ∨ ToBoolean (get u' "name") = false.

(** No property went away. *)
Definition properties_kept (u u' : object) : Prop :=
  dom (own u) ⊆ dom (own u').

(** The request is no update with a [__proto__] field in its body. *)
Definition plain_update (c : route * request) : Prop :=
  is_PUT c.1 → body c.2 !! "__proto__" = None.

(** A record that does not have the prototype it was built with has an id
    of its own: the directory of a running server holds no other record,
    since a prototype is replaced only in a record that [find] returned. *)
Definition own_id_if_reparented (u : object) : Prop :=
  proto u = ObjectPrototype ∨ is_Some (own u !! "id").

(** ** Basic facts *)

Lemma find_Some users userId i u :
  find userId users = Some (i, u) ↔ first_with_id users userId i u.
Proof. unfold find, first_with_id. apply list_find_Some. Qed.

Lemma find_None users userId :
  find userId users = None ↔ no_user_with_id users userId.
Proof.
  unfold find, no_user_with_id. rewrite list_find_None, Forall_lookup.
  reflexivity.
Qed.

Lemma find_total users userId :
  (∃ i u, first_with_id users userId i u) ∨ no_user_with_id users userId.
Proof.
  destruct (find userId users) as [[i u]|] eqn:E.
  - left. exists i, u. by apply find_Some.
  - right. by apply find_None.
Qed.

(** The seeded record is the first, and only, record with id 1. *)
Lemma seed_is_first :
  first_with_id healthData (Number 1) 0 (healthData !!! 0).
Proof.
  split_and!; [reflexivity|exact I|]. intros j v _ Hj. inversion Hj.
Qed.

Lemma seed_is_alone j (w : object) :
  j ≠ 0 → healthData !! j = Some w → ¬ id_is (Number 1) w.
Proof. destruct j as [|[|j]]; [done|discriminate..]. Qed.

Lemma strict_eq_NaN v : strict_eq v NaN = false.
Proof. by destruct v. Qed.

Lemma no_user_with_id_NaN users : no_user_with_id users NaN.
Proof. intros j v _. unfold id_is. rewrite strict_eq_NaN. exact id. Qed.

(** An input that does not start with a decimal digit parses to [NaN]. *)
Lemma parseInt_not_numeric s :
  starts_numeric s = false → parseInt s = NaN.
Proof.
  unfold parseInt, starts_numeric.
  destruct (strip_sign (trim_start s)) as [sign s1]; simpl.
  destruct s1 as [|c r]; [done|]. intros H%bool_decide_eq_false.
  destruct (radix_digit 10 c) as [d|] eqn:Hc; [by destruct H|].
  assert (strip_prefix (String c r) = (10%Z, String c r)) as ->.
  { unfold strip_prefix.
    destruct (decide (c = "0"%char)) as [->|Hc0]; [discriminate Hc|].
    destruct c as [[] [] [] [] [] [] [] []];
      first [reflexivity | by destruct Hc0]. }
  simpl. by rewrite Hc.
Qed.

(** ** Object.assign, property by property *)

Lemma get_new_object (props : obj) k :
  get (new_object props) k = default Undefined (props !! k).
Proof. unfold get. simpl. by destruct (props !! k). Qed.

Lemma Set_property_other k v o :
  k ≠ "__proto__" →
  Set_property k v o = mkObject (<[k := v]> (own o)) (proto o).
Proof.
  intros Hk. unfold Set_property.
  by rewrite (proj2 (String.eqb_neq k "__proto__") Hk).
Qed.

Lemma Set_property_proto v o :
  Set_property "__proto__" v o
  = if proto_is_data o then mkObject (<["__proto__" := v]> (own o)) (proto o)
    else set_prototype v o.
Proof. unfold Set_property. simpl. by destruct (proto_is_data o). Qed.

Lemma proto_is_data_insert k v m p :
  k ≠ "__proto__" →
  proto_is_data (mkObject (<[k := v]> m) p) = proto_is_data (mkObject m p).
Proof. intros Hk. unfold proto_is_data. simpl. by rewrite lookup_insert_ne. Qed.

Lemma set_prototype_own v o : own (set_prototype v o) = own o.
Proof. by destruct v. Qed.

Lemma set_prototype_insert k x v m p :
  mkObject (<[k := x]> (own (set_prototype v (mkObject m p))))
    (proto (set_prototype v (mkObject m p)))
  = set_prototype v (mkObject (<[k := x]> m) p).
Proof. by destruct v. Qed.

(** Two assignments to different names can be made in either order. *)
Lemma Set_property_comm k1 k2 v1 v2 o :
  k1 ≠ k2 →
  Set_property k1 v1 (Set_property k2 v2 o)
  = Set_property k2 v2 (Set_property k1 v1 o).
Proof.
  assert (∀ k v v' m p, k ≠ "__proto__" →
            Set_property "__proto__" v (Set_property k v' (mkObject m p))
            = Set_property k v' (Set_property "__proto__" v (mkObject m p)))
    as Hproto.
  { intros k v v' m p Hk. rewrite (Set_property_other k v' (mkObject m p) Hk).
    cbn [own proto]. rewrite !Set_property_proto.
    rewrite proto_is_data_insert by done.
    destruct (proto_is_data (mkObject m p)).
    - rewrite Set_property_other by done. cbn [own proto].
      by rewrite insert_insert_ne.
    - rewrite Set_property_other by done. by rewrite set_prototype_insert. }
  intros Hne. destruct o as [m p].
  destruct (decide (k1 = "__proto__")) as [->|H1];
    destruct (decide (k2 = "__proto__")) as [->|H2]; [done| | |].
  - by apply Hproto.
  - symmetry. by apply Hproto.
  - rewrite !Set_property_other by done. cbn [own proto].
    by rewrite insert_insert_ne.
Qed.

(** What [Object.assign] leaves: the own properties of the source over
    those of the target, except that a [__proto__] of the source goes
    through [Set_property]. *)
Lemma Object_assign_unfold target source :
  Object_assign target source
  = match own source !! "__proto__" with
    | Some v =>
        if proto_is_data target
        then mkObject (own source ∪ own target) (proto target)
        else set_prototype v
               (mkObject (delete "__proto__" (own source) ∪ own target)
                  (proto target))
    | None => mkObject (own source ∪ own target) (proto target)
    end.
Proof.
  unfold Object_assign. destruct target as [t p]. cbn [own proto].
  generalize (own source). clear source. intros m.
  induction m as [|k x m Hk IH] using map_ind.
  - rewrite map_fold_empty, lookup_empty. by rewrite (left_id_L ∅ (∪)).
  - rewrite map_fold_insert_L; [|by intros; apply Set_property_comm|done].
    rewrite IH. clear IH.
    destruct (decide (k = "__proto__")) as [->|Hne].
    + rewrite Hk, lookup_insert_eq, Set_property_proto.
      assert (proto_is_data (mkObject (m ∪ t) p) = proto_is_data (mkObject t p))
        as ->.
      { unfold proto_is_data. cbn [own proto]. by rewrite lookup_union_r. }
      destruct (proto_is_data (mkObject t p)); cbn [own proto].
      * by rewrite insert_union_l.
      * by rewrite delete_insert_eq, delete_id.
    + rewrite lookup_insert_ne by done.
      destruct (m !! "__proto__") as [v|] eqn:Ev.
      * destruct (proto_is_data (mkObject t p)).
        -- rewrite Set_property_other by done. cbn [own proto].
           by rewrite insert_union_l.
        -- rewrite Set_property_other by done.
           rewrite set_prototype_insert.
           by rewrite delete_insert_ne, insert_union_l.
      * rewrite Set_property_other by done. cbn [own proto].
        by rewrite insert_union_l.
Qed.

(** With no [__proto__] in the source, the merge is the union of the own
    properties and the prototype stays. *)
Lemma Object_assign_plain target source :
  own source !! "__proto__" = None →
  Object_assign target source
  = mkObject (own source ∪ own target) (proto target).
Proof. intros H. by rewrite Object_assign_unfold, H. Qed.

Lemma Object_assign_present target source k v :
  k ≠ "__proto__" → own source !! k = Some v →
  own (Object_assign target source) !! k = Some v.
Proof.
  intros Hk Hv. rewrite Object_assign_unfold.
  destruct (own source !! "__proto__");
    [destruct (proto_is_data target)|]; simpl;
    rewrite ?set_prototype_own; simpl;
    apply lookup_union_Some_l; by rewrite ?lookup_delete_ne.
Qed.

Lemma Object_assign_absent target source k :
  own source !! k = None →
  own (Object_assign target source) !! k = own target !! k.
Proof.
  intros Hk. rewrite Object_assign_unfold.
  destruct (own source !! "__proto__") eqn:Ep;
    [destruct (proto_is_data target)|]; simpl;
    rewrite ?set_prototype_own; simpl;
    apply lookup_union_r; [done| |done].
  rewrite lookup_delete_ne; [done|]. intros <-. congruence.
Qed.

Lemma Object_assign_dom target source :
  dom (own target) ⊆ dom (own (Object_assign target source)).
Proof.
  rewrite Object_assign_unfold.
  destruct (own source !! "__proto__");
    [destruct (proto_is_data target)|]; simpl;
    rewrite ?set_prototype_own; simpl; rewrite dom_union; set_solver.
Qed.

Lemma Object_assign_twice target source :
  own source !! "__proto__" = None →
  Object_assign (Object_assign target source) source
  = Object_assign target source.
Proof.
  intros H. rewrite !Object_assign_plain by done. simpl.
  by rewrite (assoc_L (∪)), (idemp_L (∪)).
Qed.

Lemma get_assign_present target source k v :
  k ≠ "__proto__" → own source !! k = Some v →
  get (Object_assign target source) k = v.
Proof.
  intros Hk Hv. unfold get.
  by rewrite (Object_assign_present _ _ _ _ Hk Hv).
Qed.

Lemma get_assign_absent target source k :
  own source !! "__proto__" = None → own source !! k = None →
  get (Object_assign target source) k = get target k.
Proof.
  intros Hp Hk. rewrite Object_assign_plain by done. unfold get. simpl.
  by rewrite lookup_union_r.
Qed.

(** A property of its own shields a record from its prototype. *)
Lemma get_own (o : object) k v : own o !! k = Some v → get o k = v.
Proof. intros H. unfold get. by rewrite H. Qed.

Lemma get_assign_own target source k v :
  own source !! k = None → own target !! k = Some v →
  get (Object_assign target source) k = v.
Proof.
  intros Hk Hv. apply get_own. by rewrite Object_assign_absent.
Qed.

(** ** parseInt on numerals *)

Lemma append_cons a s t : String a s +:+ t = String a (s +:+ t).
Proof. reflexivity. Qed.

Lemma append_empty_l t : "" +:+ t = t.
Proof. reflexivity. Qed.

Lemma append_assoc s t u : (s +:+ t) +:+ u = s +:+ (t +:+ u).
Proof.
  induction s as [|a s IH]; [done|]. by rewrite !append_cons, IH.
Qed.

Lemma parseInt_cases s :
  parseInt s = NaN ∨ (∃ n, parseInt s = Number n)
  ∨ (∃ b, parseInt s = Infinity b).
Proof.
  unfold parseInt. destruct (strip_sign (trim_start s)) as [sign s1].
  destruct (strip_prefix s1) as [R s2]. destruct (digits R s2); [by left|].
  right. unfold round_double.
  repeat match goal with |- context [if ?b then _ else _] => destruct b end;
    eauto.
Qed.

(** Up to 2^53 every integer is its own Number value. *)
Lemma round_double_exact z :
  (Z.abs z ≤ 2 ^ 53)%Z → round_double z = Number z.
Proof.
  intros Hz. destruct (decide (Z.abs z < 2 ^ 53)%Z) as [Hlt|Hge].
  - unfold round_double. by rewrite (proj2 (Z.ltb_lt _ _) Hlt).
  - assert (z = 2 ^ 53 ∨ z = - 2 ^ 53)%Z as [->| ->] by lia;
      by vm_compute.
Qed.

(** A byte below 128 that is no white space ends the white space. *)
Lemma trim_start_stop a r :
  is_white_space a = false → nat_of_ascii a < 128 →
  trim_start (String a r) = String a r.
Proof.
  intros Hw Ha. simpl. rewrite Hw.
  assert (∀ c2, is_white_space2 a c2 = false) as H2.
  { intros c2. unfold is_white_space2.
    by rewrite (proj2 (Nat.eqb_neq _ 194)) by lia. }
  assert (∀ c2 c3, is_white_space3 a c2 c3 = false) as H3.
  { intros c2 c3. unfold is_white_space3.
    rewrite (proj2 (Nat.eqb_neq _ 225)), (proj2 (Nat.eqb_neq _ 226)),
      (proj2 (Nat.eqb_neq _ 227)), (proj2 (Nat.eqb_neq _ 239)) by lia.
    done. }
  destruct r as [|c2 [|c3 r]]; by rewrite ?H2, ?H3.
Qed.

Lemma trim_start_app s t a r :
  trim_start s = String a r → nat_of_ascii a < 128 →
  trim_start (s +:+ t) = String a r +:+ t.
Proof.
  intros Hs Ha. remember (String.length s) as n eqn:Hn.
  revert s Hn Hs. induction (lt_wf n) as [n _ IH]. intros s -> Hs.
  destruct s as [|c1 r1]; [done|]. rewrite append_cons.
  simpl in Hs. simpl. destruct (is_white_space c1) eqn:E1.
  { eapply (IH (String.length r1)); [simpl; lia|done..]. }
  destruct r1 as [|c2 r2].
  { injection Hs as <- <-. rewrite append_empty_l.
    pose proof (trim_start_stop c1 t E1 Ha) as Ht. simpl in Ht.
    by rewrite E1 in Ht. }
  rewrite append_cons. destruct (is_white_space2 c1 c2) eqn:E2.
  { eapply (IH (String.length r2)); [simpl; lia|done..]. }
  destruct r2 as [|c3 r3].
  { injection Hs as <- <-. rewrite append_empty_l.
    pose proof (trim_start_stop c1 (String c2 t) E1 Ha) as Ht. simpl in Ht.
    by rewrite E1, E2 in Ht. }
  rewrite append_cons. destruct (is_white_space3 c1 c2 c3) eqn:E3.
  { eapply (IH (String.length r3)); [simpl; lia|done..]. }
  by injection Hs as <- <-.
Qed.

(** Each white space code point, in UTF-8, is skipped. *)
Lemma trim_start_utf8 cp s :
  cp ∈ white_space_code_points → trim_start (utf8 cp +:+ s) = trim_start s.
Proof.
  unfold white_space_code_points. intros H.
  repeat (apply elem_of_cons in H as [->|H]; [reflexivity|]).
  by apply elem_of_nil in H.
Qed.

Lemma trim_start_utf8_string cps s :
  Forall (λ cp, cp ∈ white_space_code_points) cps →
  trim_start (utf8_string cps +:+ s) = trim_start s.
Proof.
  induction 1 as [|cp cps Hcp _ IH]; [done|].
  cbn [utf8_string foldr]. rewrite append_assoc.
  rewrite (trim_start_utf8 _ _ Hcp). exact IH.
Qed.

Lemma strip_sign_app s t :
  s ≠ "" →
  strip_sign (s +:+ t) = ((strip_sign s).1, (strip_sign s).2 +:+ t).
Proof.
  destruct s as [|a r]; [done|]. intros _.
  destruct a as [[] [] [] [] [] [] [] []]; reflexivity.
Qed.

Lemma strip_prefix_app s c t :
  s ≠ "" → digit_value c = None →
  strip_prefix (s +:+ String c t)
  = ((strip_prefix s).1, (strip_prefix s).2 +:+ String c t).
Proof.
  destruct s as [|a r]; [done|]. intros _ Hc.
  destruct (decide (a = "0"%char)) as [->|Ha].
  - destruct r as [|b r].
    + destruct c as [[] [] [] [] [] [] [] []];
        first [reflexivity | discriminate Hc].
    + destruct b as [[] [] [] [] [] [] [] []]; reflexivity.
  - destruct a as [[] [] [] [] [] [] [] []];
      first [reflexivity | by destruct Ha].
Qed.

Lemma digits_app R s c t :
  radix_digit R c = None → digits R (s +:+ String c t) = digits R s.
Proof.
  intros Hc. induction s as [|a r IH].
  - rewrite append_empty_l. simpl. by rewrite Hc.
  - rewrite append_cons. simpl.
    destruct (radix_digit R a); [by rewrite IH|done].
Qed.

(** A letter or digit is a byte below 128 and no white space. *)
Lemma digit_value_plain c d :
  digit_value c = Some d → is_white_space c = false ∧ nat_of_ascii c < 128.
Proof.
  destruct c as [[] [] [] [] [] [] [] []]; intros H;
    first [discriminate H
          | split; [reflexivity | by apply Nat.ltb_lt] ].
Qed.

(** What is left of an input that parses to a number, after the white
    space, starts with a sign or a digit. *)
Lemma parseInt_first_char s :
  parseInt s ≠ NaN →
  ∃ a r, trim_start s = String a r ∧ nat_of_ascii a < 128
         ∧ (strip_sign (String a r)).2 ≠ "".
Proof.
  unfold parseInt. intros H.
  destruct (trim_start s) as [|a r] eqn:Es; [by destruct H|].
  exists a, r. split; [done|].
  destruct (strip_sign (String a r)) as [sign s1] eqn:E1.
  destruct (strip_prefix s1) as [R s2] eqn:E2.
  destruct (digits R s2) as [|d ds] eqn:Ed; [done|]. clear H.
  assert (s1 ≠ "") as Hs1 by (by intros ->; injection E2 as <- <-).
  split; [|done].
  destruct (decide (a = "-"%char)) as [->|Hm]; [by apply Nat.ltb_lt|].
  destruct (decide (a = "+"%char)) as [->|Hp]; [by apply Nat.ltb_lt|].
  assert (s1 = String a r) as ->.
  { destruct a as [[] [] [] [] [] [] [] []]; simpl in E1;
      first [by injection E1 as _ <- | by destruct Hm | by destruct Hp]. }
  destruct (decide (a = "0"%char)) as [->|H0]; [by apply Nat.ltb_lt|].
  assert (s2 = String a r ∧ R = 10%Z) as [-> ->].
  { destruct a as [[] [] [] [] [] [] [] []]; simpl in E2;
      first [by injection E2 as <- <- | by destruct H0]. }
  simpl in Ed. unfold radix_digit in Ed.
  destruct (digit_value a) as [x|] eqn:Ea; [|done].
  by destruct (digit_value_plain _ _ Ea).
Qed.

(** Past an input that parses to a number, text that starts with a
    character other than a letter or a digit is not read. *)
Lemma parseInt_suffix s c t :
  parseInt s ≠ NaN → digit_value c = None →
  parseInt (s +:+ String c t) = parseInt s.
Proof.
  intros Hs Hc.
  destruct (parseInt_first_char s Hs) as (a & r & Ea & Ha & Hs1).
  unfold parseInt. rewrite (trim_start_app _ _ _ _ Ea Ha), Ea.
  rewrite strip_sign_app by done.
  destruct (strip_sign (String a r)) as [sign s1]. cbn [fst snd] in *.
  rewrite (strip_prefix_app _ _ _ Hs1 Hc).
  destruct (strip_prefix s1) as [R s2]. cbn [fst snd].
  rewrite digits_app; [done|]. unfold radix_digit. by rewrite Hc.
Qed.

Lemma digit_value_digit_char n upper :
  n < 36 → digit_value (digit_char (n, upper)) = Some (Z.of_nat n).
Proof.
  intros Hn.
  do 36 (destruct n as [|n]; [by destruct upper|]). lia.
Qed.

Lemma digits_cons R c r :
  digits R (String c r)
  = match radix_digit R c with
    | Some d => d :: digits R r
    | None => []
    end.
Proof. reflexivity. Qed.

Lemma digits_numeral R ds rest :
  (R ≤ 36)%Z → Forall (λ d, (Z.of_nat d.1 < R)%Z) ds → ends_number rest →
  digits R (numeral ds +:+ rest) = (λ d, Z.of_nat d.1) <$> ds.
Proof.
  intros HR Hds Hrest. induction Hds as [|[n up] ds Hd _ IH].
  - cbn [numeral foldr]. rewrite append_empty_l.
    destruct rest as [|c t]; [done|]. rewrite digits_cons.
    unfold radix_digit. simpl in Hrest. by rewrite Hrest.
  - cbn [numeral foldr]. rewrite append_cons, digits_cons. simpl in Hd.
    unfold radix_digit at 1. rewrite digit_value_digit_char by lia.
    rewrite (proj2 (Z.ltb_lt _ _) Hd). cbn [fmap list_fmap fst]. f_equal.
    exact IH.
Qed.

Lemma mathInt_positional R ds :
  mathInt R ((λ d, Z.of_nat d.1) <$> ds) = positional R ds.
Proof.
  unfold mathInt.
  assert (∀ acc,
            fold_left (λ acc d, acc * R + d)%Z ((λ d, Z.of_nat d.1) <$> ds) acc
            = (acc * R ^ Z.of_nat (length ds) + positional R ds)%Z) as H.
  { induction ds as [|d ds IH]; intros acc.
    - simpl. lia.
    - cbn [fmap list_fmap fold_left positional length]. rewrite IH.
      rewrite Nat2Z.inj_succ, Z.pow_succ_r by lia. lia. }
  rewrite H. lia.
Qed.

(** A decimal digit, as a character, is no white space, no sign and no
    [x]. *)
Lemma decimal_digit_char n upper :
  n < 10 →
  let c := digit_char (n, upper) in
  is_white_space c = false ∧ nat_of_ascii c < 128
  ∧ c ≠ "-"%char ∧ c ≠ "+"%char ∧ c ≠ "x"%char ∧ c ≠ "X"%char.
Proof.
  intros Hn.
  do 10 (destruct n as [|n];
         [split_and!; [reflexivity|by apply Nat.ltb_lt|done..]|]).
  lia.
Qed.

Lemma strip_sign_sign_text sign a r :
  a ≠ "-"%char → a ≠ "+"%char →
  strip_sign (sign_text sign +:+ String a r) = (sign_factor sign, String a r).
Proof.
  intros Hm Hp. destruct sign as [[]|]; [reflexivity..|].
  rewrite append_empty_l.
  destruct a as [[] [] [] [] [] [] [] []];
    first [reflexivity | by destruct Hm | by destruct Hp].
Qed.

Lemma trim_start_sign_text sign a r :
  is_white_space a = false → nat_of_ascii a < 128 →
  trim_start (sign_text sign +:+ String a r) = sign_text sign +:+ String a r.
Proof.
  intros Hw Ha. destruct sign as [[]|].
  - by apply trim_start_stop; [|apply Nat.ltb_lt].
  - by apply trim_start_stop; [|apply Nat.ltb_lt].
  - rewrite append_empty_l. by apply trim_start_stop.
Qed.

(** White space, a sign, decimal digits and a rest that no digit starts:
    [parseInt] gives the Number value of the integer that the digits
    denote, with the sign. *)
Lemma parseInt_decimal ws sign d ds rest :
  Forall (λ cp, cp ∈ white_space_code_points) ws →
  Forall (λ d, d.1 < 10) (d :: ds) →
  ends_number rest →
  parseInt (utf8_string ws +:+ sign_text sign +:+ numeral (d :: ds) +:+ rest)
  = round_double (sign_factor sign * positional 10 (d :: ds)).
Proof.
  intros Hws Hds Hrest. unfold parseInt.
  rewrite (trim_start_utf8_string _ _ Hws).
  pose proof (Forall_inv Hds) as Hd. destruct d as [n up]. simpl in Hd.
  destruct (decimal_digit_char n up Hd) as (Hw & Ha & Hm & Hp & Hx & HX).
  cbn [numeral foldr]. rewrite append_cons.
  rewrite (trim_start_sign_text _ _ _ Hw Ha).
  rewrite (strip_sign_sign_text _ _ _ Hm Hp).
  assert (strip_prefix
            (String (digit_char (n, up))
               (foldr (λ d s, String (digit_char d) s) "" ds +:+ rest))
          = (10%Z,
             String (digit_char (n, up))
               (foldr (λ d s, String (digit_char d) s) "" ds +:+ rest)))
    as ->.
  { destruct (decide (digit_char (n, up) = "0"%char)) as [->|H0].
    - destruct ds as [|[n2 up2] ds].
      + cbn [foldr]. rewrite append_empty_l.
        destruct rest as [|c t]; [done|]. simpl in Hrest.
        destruct c as [[] [] [] [] [] [] [] []];
          first [reflexivity | discriminate Hrest].
      + cbn [foldr]. rewrite append_cons.
        apply Forall_inv_tail, Forall_inv in Hds. simpl in Hds.
        destruct (decimal_digit_char n2 up2 Hds) as (_ & _ & _ & _ & Hx2 & HX2).
        destruct (digit_char (n2, up2)) as [[] [] [] [] [] [] [] []];
          first [reflexivity | by destruct Hx2 | by destruct HX2].
    - destruct (digit_char (n, up)) as [[] [] [] [] [] [] [] []];
        first [reflexivity | by destruct H0]. }
  change (String (digit_char (n, up))
            (foldr (λ d s, String (digit_char d) s) "" ds +:+ rest))
    with (numeral ((n, up) :: ds) +:+ rest).
  rewrite digits_numeral; [|lia| |done].
  - rewrite <- mathInt_positional. by cbn [fmap list_fmap].
  - eapply Forall_impl; [exact Hds|]. intros [] ?; simpl in *; lia.
Qed.

(** The same with the prefix [0x] or [0X] and hexadecimal digits. *)
Lemma parseInt_hexadecimal ws sign (upper_x : bool) d ds rest :
  Forall (λ cp, cp ∈ white_space_code_points) ws →
  Forall (λ d, d.1 < 16) (d :: ds) →
  ends_number rest →
  parseInt (utf8_string ws +:+ sign_text sign
            +:+ (if upper_x then "0X" else "0x")
            +:+ numeral (d :: ds) +:+ rest)
  = round_double (sign_factor sign * positional 16 (d :: ds)).
Proof.
  intros Hws Hds Hrest. unfold parseInt.
  rewrite (trim_start_utf8_string _ _ Hws).
  assert ((if upper_x then "0X" else "0x") +:+ numeral (d :: ds) +:+ rest
          = String "0" (String (if upper_x then "X" else "x")%char
                          (numeral (d :: ds) +:+ rest))) as ->
    by (by destruct upper_x).
  rewrite trim_start_sign_text by first [done | by apply Nat.ltb_lt].
  rewrite strip_sign_sign_text by done.
  assert (strip_prefix
            (String "0" (String (if upper_x then "X" else "x")%char
                           (numeral (d :: ds) +:+ rest)))
          = (16%Z, numeral (d :: ds) +:+ rest)) as ->
    by (by destruct upper_x).
  rewrite digits_numeral; [|lia| |done].
  - rewrite <- mathInt_positional. by cbn [fmap list_fmap].
  - eapply Forall_impl; [exact Hds|]. intros [] ?; simpl in *; lia.
Qed.

(** ** Listing and creating *)

(** C7. On a fresh start the directory holds exactly one record, with
    id 1, name "John Doe", age 30, weight 75, height 180 and no other
    property; listing the users answers that one-element sequence under
    status 200.  Fetching a user leaves the seeded directory in place, and
    listing leaves any directory as it was. *)
Theorem seed_record_and_list_users (req : request) :
  (∃ u : object,
      healthData = [u]
      ∧ own u !! "id" = Some (Number 1)
      ∧ own u !! "name" = Some (Str "John Doe")
      ∧ own u !! "age" = Some (Number 30)
      ∧ own u !! "weight" = Some (Number 75)
      ∧ own u !! "height" = Some (Number 180)
      ∧ size (own u) = 5
      ∧ proto u = ObjectPrototype
      ∧ (get_users healthData req).2
        = mkResponse 200 [(200, PArray [own u])])
  ∧ (part_000.get_users_id healthData req).1 = healthData
  ∧ (index_js.get_users_id healthData req).1 = healthData
  ∧ ∀ users : list object,
      (get_users users req).1 = users
      ∧ sends (get_users users req).2 = [(200, PArray (own <$> users))].
Proof.
  split_and!.
  - eexists. split; [reflexivity|]. by vm_compute.
  - unfold part_000.get_users_id. by destruct find as [[]|].
  - reflexivity.
  - intros users. by split.
Qed.

(** C4. Creating a user appends the request body, whatever it holds, at
    the end of the directory: the records already there keep their
    positions, the length grows by one, and the body comes back under
    status 201. *)
Theorem create_appends_body (users : list object) (req : request) :
  let '(users', res) := post_users users req in
  users' = users ++ [new_object (body req)]
  ∧ length users' = S (length users)
  ∧ take (length users) users' = users
  ∧ users' !! length users = Some (new_object (body req))
  ∧ sends res = [(201, PObject (body req))].
Proof.
  simpl. split_and!; [done| |by rewrite take_app_length| |done].
  - rewrite length_app. simpl. lia.
  - by rewrite list_lookup_middle.
Qed.

(** The example of the specification: after the creation of Jane, the
    list holds record 1, then record 2.  A body with the id of an existing
    record is appended all the same. *)
Example post_jane :
  let jane : obj :=
    {[ "id" := Number 2; "name" := Str "Jane"; "age" := Number 25;
       "weight" := Number 60; "height" := Number 165 ]} in
  let r := post_users healthData (mkRequest "" jane) in
  sends r.2 = [(201, PObject jane)]
  ∧ sends (get_users r.1 (mkRequest "" ∅)).2
    = [(200, PArray (own <$> healthData ++ [new_object jane]))]
  ∧ (λ u, get u "id") <$> r.1 = [Number 1; Number 2].
Proof. by vm_compute. Qed.

Example post_colliding_id :
  (post_users healthData (mkRequest "" {[ "id" := Number 1 ]})).1
  = healthData ++ [ new_object {[ "id" := Number 1 ]} ].
Proof. reflexivity. Qed.

(** ** Fetching one user *)

Lemma part_000_get_found users req i u :
  first_with_id users (parseInt (params_id req)) i u →
  part_000.get_users_id users req
  = (users, mkResponse 200 [(200, PObject (own u))]).
Proof.
  intros H%find_Some. unfold part_000.get_users_id. by rewrite H.
Qed.

Lemma part_000_get_not_found users req :
  no_user_with_id users (parseInt (params_id req)) →
  part_000.get_users_id users req
  = (users, mkResponse 404 [(404, error "User not found")]).
Proof.
  intros H%find_None. unfold part_000.get_users_id. by rewrite H.
Qed.

Lemma index_js_get_found users req i u :
  first_with_id users (parseInt (params_id req)) i u →
  index_js.get_users_id users req
  = (users, mkResponse 200 [(200, PObject (own u))]).
Proof.
  intros H%find_Some. unfold index_js.get_users_id. by rewrite H.
Qed.

(** Without a [return], [src/index.js] goes on to the success statement. *)
Lemma index_js_get_not_found users req :
  no_user_with_id users (parseInt (params_id req)) →
  index_js.get_users_id users req
  = (users, mkResponse 200 [(404, error "User not found"); (200, PUndefined)]).
Proof.
  intros H%find_None. unfold index_js.get_users_id. by rewrite H.
Qed.

(** C3. The identifier of the path goes through [parseInt].  White
    space, then a sign, then decimal digits, or [0x] and hexadecimal
    digits, then a rest that no letter or digit starts: the parsed id is
    the Number value of the integer the digits denote, which up to 2^53 is
    that integer.  An input that does not start with a decimal digit gives
    [NaN], and [NaN] equals no record's id.  Either some record carries
    the parsed id, and the first such record is answered under status 200,
    or none does, and the answer is the error "User not found" under status
    404.  In [src/index.js] this is the response the client receives.  The
    directory stays as it was. *)
Theorem get_user_by_id (users : list object) (req : request) :
  let userId := parseInt (params_id req) in
  (∀ ws sign d ds rest,
     Forall (λ cp, cp ∈ white_space_code_points) ws →
     Forall (λ d, d.1 < 10) (d :: ds) →
     ends_number rest →
     params_id req
     = utf8_string ws +:+ sign_text sign +:+ numeral (d :: ds) +:+ rest →
     userId = round_double (sign_factor sign * positional 10 (d :: ds)))
  ∧ (∀ ws sign (upper_x : bool) d ds rest,
       Forall (λ cp, cp ∈ white_space_code_points) ws →
       Forall (λ d, d.1 < 16) (d :: ds) →
       ends_number rest →
       params_id req
       = utf8_string ws +:+ sign_text sign
         +:+ (if upper_x then "0X" else "0x")
         +:+ numeral (d :: ds) +:+ rest →
       userId = round_double (sign_factor sign * positional 16 (d :: ds)))
  ∧ (∀ z, (Z.abs z ≤ 2 ^ 53)%Z → round_double z = Number z)
  ∧ (starts_numeric (params_id req) = true ∨ userId = NaN)
  ∧ no_user_with_id users NaN
  ∧ ((∃ i u,
        first_with_id users userId i u
        ∧ part_000.get_users_id users req
          = (users, mkResponse 200 [(200, PObject (own u))])
        ∧ (index_js.get_users_id users req).1 = users
        ∧ delivered (index_js.get_users_id users req).2
          = Some (200, PObject (own u)))
     ∨ (no_user_with_id users userId
        ∧ part_000.get_users_id users req
          = (users, mkResponse 404 [(404, error "User not found")])
        ∧ (index_js.get_users_id users req).1 = users
        ∧ delivered (index_js.get_users_id users req).2
          = Some (404, error "User not found"))).
Proof.
  intros userId. split_and!.
  - intros ws sign d ds rest Hws Hds Hrest E. unfold userId. rewrite E.
    by apply parseInt_decimal.
  - intros ws sign upper_x d ds rest Hws Hds Hrest E. unfold userId.
    rewrite E. by apply parseInt_hexadecimal.
  - apply round_double_exact.
  - destruct (starts_numeric (params_id req)) eqn:Hs; [by left|right].
    by apply parseInt_not_numeric.
  - apply no_user_with_id_NaN.
  - destruct (find_total users userId) as [(i & u & H)|H].
    + left. exists i, u. split; [done|].
      split; [by eapply part_000_get_found|].
      by rewrite (index_js_get_found _ _ _ _ H).
    + right. split; [done|]. split; [by apply part_000_get_not_found|].
      by rewrite (index_js_get_not_found _ _ H).
Qed.

(** [GET /users/ +1.json], the path starting with the space U+2003, and
    [GET /users/0X1]: both answer record 1. *)
Lemma get_user_by_id_witness :
  let ws := [0x2003%N] in
  let req :=
    mkRequest
      (utf8_string ws +:+ sign_text (Some false) +:+ numeral [(1, false)]
       +:+ ".json") ∅ in
  let hex :=
    mkRequest
      (utf8_string [] +:+ sign_text None +:+ "0X" +:+ numeral [(1, false)]
       +:+ "") ∅ in
  Forall (λ cp, cp ∈ white_space_code_points) ws
  ∧ Forall (λ d : nat * bool, d.1 < 10) [(1, false)]
  ∧ ends_number ".json"
  ∧ parseInt (params_id req)
    = round_double (sign_factor (Some false) * positional 10 [(1, false)])
  ∧ parseInt (params_id hex)
    = round_double (sign_factor None * positional 16 [(1, false)])
  ∧ round_double 1 = Number 1
  ∧ part_000.get_users_id healthData req
    = (healthData, mkResponse 200 [(200, PObject (own (healthData !!! 0)))])
  ∧ part_000.get_users_id healthData hex
    = (healthData, mkResponse 200 [(200, PObject (own (healthData !!! 0)))]).
Proof.
  intros ws req hex.
  assert (Forall (λ cp, cp ∈ white_space_code_points) ws) as Hws.
  { repeat constructor. }
  assert (Forall (λ d : nat * bool, d.1 < 10) [(1, false)]) as Hds
    by (repeat constructor).
  assert (Forall (λ d : nat * bool, d.1 < 16) [(1, false)]) as Hhs
    by (repeat constructor; simpl; lia).
  split; [exact Hws|]. split; [exact Hds|]. split; [reflexivity|].
  split.
  { exact (proj1 (get_user_by_id healthData req) ws (Some false) (1, false)
             [] ".json" Hws Hds eq_refl eq_refl). }
  split.
  { exact (proj1 (proj2 (get_user_by_id healthData hex)) [] None true
             (1, false) [] "" (Forall_nil_2 _) Hhs I eq_refl). }
  split.
  { apply (get_user_by_id healthData req). by vm_compute. }
  split; reflexivity.
Defined.

(** The two cases exclude each other. *)
Lemma first_with_id_excludes_none users userId i u :
  first_with_id users userId i u → ¬ no_user_with_id users userId.
Proof. intros (Hi & Hid & _) H. exact (H i u Hi Hid). Qed.

Example get_user_1 :
  part_000.get_users_id healthData (mkRequest "1" ∅)
  = (healthData, mkResponse 200 [(200, PObject (own (healthData !!! 0)))]).
Proof. reflexivity. Qed.

Example get_user_999 :
  part_000.get_users_id healthData (mkRequest "999" ∅)
  = (healthData, mkResponse 404 [(404, error "User not found")]).
Proof. reflexivity. Qed.

Example get_user_abc :
  parseInt "abc" = NaN
  ∧ part_000.get_users_id healthData (mkRequest "abc" ∅)
    = (healthData, mkResponse 404 [(404, error "User not found")]).
Proof. split; reflexivity. Qed.

(** Beyond 2^53 the parsed id is the nearest double: the record with id
    2^53 is fetched under the path 9007199254740993. *)
Example get_user_beyond_2_53 :
  let big := new_object {[ "id" := Number 9007199254740992 ]} in
  parseInt "9007199254740993" = Number 9007199254740992
  ∧ part_000.get_users_id [big] (mkRequest "9007199254740993" ∅)
    = ([big], mkResponse 200 [(200, PObject (own big))]).
Proof. split; reflexivity. Qed.

(** C2, at the input where [src/index.js] departs from it: for an id that
    no record carries, the handler of [src/index.js] calls [json] with the
    404 error and then [send] again under status 200. *)
Theorem index_js_get_unknown_id_sends_twice :
  sends (index_js.get_users_id healthData (mkRequest "999" ∅)).2
  = [(404, error "User not found"); (200, PUndefined)].
Proof. reflexivity. Qed.

(** The handler of [part_000] returns after the 404. *)
Lemma part_000_get_unknown_id_sends_once users req :
  no_user_with_id users (parseInt (params_id req)) →
  sends (part_000.get_users_id users req).2
  = [(404, error "User not found")].
Proof. intros H. by rewrite part_000_get_not_found. Qed.

(** ** Updating a user *)


(** Writing, at the position found, a record that still carries the id
    keeps it the first match. *)
Lemma first_with_id_insert users userId i u u' :
  first_with_id users userId i u → id_is userId u' →
  first_with_id (<[i := u']> users) userId i u'.
Proof.
  intros (Hi & _ & Hfirst) Hid. split_and!; [|done|].
  - apply list_lookup_insert_eq. by eapply lookup_lt_Some.
  - intros j v Hj Hlt. rewrite list_lookup_insert_ne in Hj by lia. eauto.
Qed.

Section update.
Context (users : list object) (req : request).

Lemma put_not_found :
  no_user_with_id users (parseInt (params_id req)) →
  part_000.put_users_id users req
  = (users, mkResponse 404 [(404, error "User not found")]).
Proof.
  intros H%find_None. unfold part_000.put_users_id.
  by rewrite H.
Qed.

Lemma put_rejected i user :
  first_with_id users (parseInt (params_id req)) i user →
  name_differs (new_object (body req)) user = true →
  part_000.put_users_id users req
  = (users, mkResponse 400 [(400, error "User name cannot be changed")]).
Proof.
  intros H%find_Some Hn. unfold part_000.put_users_id.
  rewrite H.
  unfold name_differs in Hn. by rewrite Hn.
Qed.

Lemma put_merged i user :
  first_with_id users (parseInt (params_id req)) i user →
  name_differs (new_object (body req)) user = false →
  part_000.put_users_id users req
  = (<[i := Object_assign user (new_object (body req))]> users,
     mkResponse 200
       [(200, PObject (own (Object_assign user (new_object (body req)))))]).
Proof.
  intros H%find_Some Hn. unfold part_000.put_users_id.
  rewrite H.
  unfold name_differs in Hn. by rewrite Hn.
Qed.

(** The three outcomes of the handler. *)
Lemma put_cases :
  (no_user_with_id users (parseInt (params_id req))
   ∧ part_000.put_users_id users req
     = (users, mkResponse 404 [(404, error "User not found")]))
  ∨ (∃ i user,
       first_with_id users (parseInt (params_id req)) i user
       ∧ name_differs (new_object (body req)) user = true
       ∧ part_000.put_users_id users req
         = (users,
            mkResponse 400 [(400, error "User name cannot be changed")]))
  ∨ (∃ i user,
       first_with_id users (parseInt (params_id req)) i user
       ∧ name_differs (new_object (body req)) user = false
       ∧ part_000.put_users_id users req
         = (<[i := Object_assign user (new_object (body req))]> users,
            mkResponse 200
              [(200,
                PObject
                  (own (Object_assign user (new_object (body req)))))])).
Proof.
  destruct (find_total users (parseInt (params_id req))) as [(i & u & H)|H].
  - destruct (name_differs (new_object (body req)) u) eqn:Hn.
    + right; left. exists i, u. eauto using put_rejected.
    + right; right. exists i, u. eauto using put_merged.
  - left. eauto using put_not_found.
Qed.

Lemma index_js_put_merged i user :
  first_with_id users (parseInt (params_id req)) i user →
  index_js.put_users_id users req
  = (<[i := Object_assign user (new_object (body req))]> users,
     mkResponse 200
       [(200, PObject (own (Object_assign user (new_object (body req)))))]).
Proof.
  intros H%find_Some. unfold index_js.put_users_id.
  by rewrite H.
Qed.

End update.

(** Splits a run [Hput] of the update of [part_000] into its outcomes. *)
Ltac put_outcomes Hput i u Hf Hn :=
  match type of Hput with
  | part_000.put_users_id ?users ?req = _ =>
      let E := fresh "E" in
      destruct (put_cases users req)
        as [[_ E]|[(i & u & Hf & Hn & E)|(i & u & Hf & Hn & E)]];
      rewrite E in Hput; injection Hput as <- <-
  end.

(** C1, at the inputs where the code departs from it.  In [part_000] a
    body whose name is the empty string passes the test of line 255: the
    answer is 200 and the stored name "John Doe" becomes the empty string.
    In [src/index.js], which has no such test, the name "Someone Else" is
    written as well. *)
Theorem put_changes_stored_name :
  (let '(users', res) :=
     part_000.put_users_id healthData (mkRequest "1" {[ "name" := Str "" ]}) in
   ∃ u', users' = [u'] ∧ own u' !! "name" = Some (Str "")
         ∧ sends res = [(200, PObject (own u'))])
  ∧ (let '(users', res) :=
       index_js.put_users_id healthData
         (mkRequest "1" {[ "name" := Str "Someone Else" ]}) in
     ∃ u', users' = [u'] ∧ own u' !! "name" = Some (Str "Someone Else")
           ∧ sends res = [(200, PObject (own u'))]).
Proof. split; eexists; (split; [reflexivity|]); by vm_compute. Qed.

(** The case of the specification's example: in [part_000] the name
    "Someone Else" is refused and the directory stays as it was. *)
Example put_someone_else :
  part_000.put_users_id healthData
    (mkRequest "1" {[ "name" := Str "Someone Else" ]})
  = (healthData, mkResponse 400 [(400, error "User name cannot be changed")]).
Proof. reflexivity. Qed.




(** The example of the specification: age 31, the name still "John Doe". *)
Example put_age_31 :
  let '(users', res) :=
    part_000.put_users_id healthData (mkRequest "1" {[ "age" := Number 31 ]}) in
  ∃ u', users' = [u'] ∧ sends res = [(200, PObject (own u'))]
        ∧ get u' "age" = Number 31 ∧ get u' "name" = Str "John Doe"
        ∧ get u' "id" = Number 1 ∧ get u' "weight" = Number 75
        ∧ get u' "height" = Number 180.
Proof. eexists. split; [reflexivity|]. by vm_compute. Qed.

(** C6. When the update of [part_000] answers 404 or 400, the directory
    after the request is the directory before it. *)
Theorem failed_update_keeps_directory
    (users : list object) (req : request) (users' : list object)
    (res : response) :
  part_000.put_users_id users req = (users', res) →
  status_of res = Some 404 ∨ status_of res = Some 400 →
  users' = users.
Proof.
  intros Hput Hst.
  put_outcomes Hput i u Hf Hn; try done.
  by destruct Hst.
Qed.

Lemma failed_update_keeps_directory_witness :
  let r404 := part_000.put_users_id healthData (mkRequest "999" ∅) in
  let r400 :=
    part_000.put_users_id healthData
      (mkRequest "1" {[ "name" := Str "Someone Else" ]}) in
  (status_of r404.2 = Some 404 ∧ r404.1 = healthData)
  ∧ (status_of r400.2 = Some 400 ∧ r400.1 = healthData).
Proof.
  intros r404 r400. split; (split; [reflexivity|]).
  - apply (failed_update_keeps_directory healthData (mkRequest "999" ∅)
             r404.1 r404.2); [reflexivity|].
    left. reflexivity.
  - apply (failed_update_keeps_directory healthData
             (mkRequest "1" {[ "name" := Str "Someone Else" ]})
             r400.1 r400.2); [reflexivity|].
    right. reflexivity.
Defined.

(** C9. For a matched record, the update of [part_000] answers the 400
    name error exactly when the body's name is truthy and differs from the
    stored one.  A falsy name in the body is therefore never refused: the
    answer is 200 and the stored name becomes that value. *)
Theorem name_test_needs_truthy_name
    (users : list object) (req : request) (i : nat) (u : object) :
  first_with_id users (parseInt (params_id req)) i u →
  let r := part_000.put_users_id users req in
  (sends r.2 = [(400, error "User name cannot be changed")]
   ↔ ToBoolean (get (new_object (body req)) "name") = true
     ∧ strict_eq (get (new_object (body req)) "name") (get u "name") = false)
  ∧ (∀ v, body req !! "name" = Some v → ToBoolean v = false →
       status_of r.2 = Some 200
       ∧ ∃ u', r.1 !! i = Some u' ∧ own u' !! "name" = Some v).
Proof.
  intros Hf r. split.
  - destruct (name_differs (new_object (body req)) u) eqn:Hn; subst r.
    + rewrite (put_rejected _ _ _ _ Hf Hn). simpl.
      apply andb_true_iff in Hn as [Ht Hd%negb_true_iff]. done.
    + rewrite (put_merged _ _ _ _ Hf Hn). simpl. split; [discriminate|].
      intros [Ht Hd]. unfold name_differs, strict_neq in Hn.
      by rewrite Ht, Hd in Hn.
  - intros v Hv Hfalsy.
    assert (name_differs (new_object (body req)) u = false) as Hn.
    { unfold name_differs. rewrite get_new_object, Hv. simpl.
      by rewrite Hfalsy. }
    subst r. rewrite (put_merged _ _ _ _ Hf Hn). simpl. split; [done|].
    eexists. split.
    + apply list_lookup_insert_eq. destruct Hf as [Hi _].
      by eapply lookup_lt_Some.
    + by apply (Object_assign_present u (new_object (body req))).
Qed.

Lemma name_test_needs_truthy_name_witness :
  let req := mkRequest "1" {[ "name" := Str "" ]} in
  let r := part_000.put_users_id healthData req in
  first_with_id healthData (parseInt "1") 0 (healthData !!! 0)
  ∧ get (healthData !!! 0) "name" = Str "John Doe"
  ∧ (sends r.2 = [(400, error "User name cannot be changed")]
     ↔ ToBoolean (get (new_object (body req)) "name") = true
       ∧ strict_eq (get (new_object (body req)) "name")
           (get (healthData !!! 0) "name")
         = false)
  ∧ (∀ v, body req !! "name" = Some v → ToBoolean v = false →
       status_of r.2 = Some 200
       ∧ ∃ u', r.1 !! 0 = Some u' ∧ own u' !! "name" = Some v).
Proof.
  intros req r. split; [exact seed_is_first|]. split; [reflexivity|].
  exact (name_test_needs_truthy_name healthData req 0 (healthData !!! 0)
           seed_is_first).
Defined.

(** ** Repeating an update *)

Lemma parseInt_not_Undefined s : parseInt s ≠ Undefined.
Proof.
  destruct (parseInt_cases s) as [E|[[n E]|[b E]]]; by rewrite E.
Qed.

(** The id a request finds in a record built by the parser, or in one
    with an id of its own, is an own property. *)
Lemma found_id_is_own s u :
  own_id_if_reparented u → id_is (parseInt s) u → is_Some (own u !! "id").
Proof.
  intros [Hp|Ho] Hid; [|done]. unfold id_is, get in Hid. rewrite Hp in Hid.
  destruct (own u !! "id"); [done|].
  pose proof (parseInt_not_Undefined s). by destruct (parseInt s).
Qed.

(** A merge without [__proto__] keeps the id, when the body has none or
    the same. *)
Lemma id_kept_by_assign userId u (b : obj) :
  b !! "__proto__" = None →
  id_is userId u → b !! "id" = None ∨ id_is userId (new_object b) →
  id_is userId (Object_assign u (new_object b)).
Proof.
  unfold id_is. intros Hp Hu Hb. destruct (b !! "id") as [v|] eqn:Ev.
  - rewrite (get_assign_present u (new_object b) "id" v) by done.
    destruct Hb as [?|Hb]; [done|]. rewrite get_new_object, Ev in Hb. done.
  - by rewrite (get_assign_absent u (new_object b)).
Qed.

(** So does any merge into a record with an id of its own. *)
Lemma own_id_kept_by_assign userId u (b : obj) :
  is_Some (own u !! "id") →
  id_is userId u → b !! "id" = None ∨ id_is userId (new_object b) →
  id_is userId (Object_assign u (new_object b)).
Proof.
  unfold id_is. intros [w Hw] Hu Hb. destruct (b !! "id") as [v|] eqn:Ev.
  - rewrite (get_assign_present u (new_object b) "id" v) by done.
    destruct Hb as [?|Hb]; [done|]. rewrite get_new_object, Ev in Hb. done.
  - rewrite (get_assign_own u (new_object b) "id" w) by done.
    by rewrite (get_own u "id" w) in Hu.
Qed.




(** ** The id under an update *)

(** C10 fails when the body's id is the path id, [PUT /users/1] with
    [{id: 1}], after which record 1 is still found, and in [part_000] also
    when the name test refuses the update. *)
Lemma update_with_same_id_still_found :
  ¬ id_unprotected part_000.put_users_id part_000.get_users_id
      healthData (mkRequest "1" {[ "id" := Number 1 ]})
  ∧ ¬ id_unprotected index_js.put_users_id index_js.get_users_id
        healthData (mkRequest "1" {[ "id" := Number 1 ]})
  ∧ ¬ id_unprotected part_000.put_users_id part_000.get_users_id
        healthData (mkRequest "1" {[ "id" := Number 2; "name" := Str "X" ]}).
Proof.
  split_and!; intros H.
  - destruct (H 0 _ (Number 1) seed_is_first eq_refl seed_is_alone)
      as [_ Hget].
    apply (f_equal (fmap fst)) in Hget. vm_compute in Hget.
    discriminate Hget.
  - destruct (H 0 _ (Number 1) seed_is_first eq_refl seed_is_alone)
      as [_ Hget].
    apply (f_equal (fmap fst)) in Hget. vm_compute in Hget.
    discriminate Hget.
  - destruct (H 0 _ (Number 2) seed_is_first eq_refl seed_is_alone)
      as [_ Hget].
    apply (f_equal (fmap fst)) in Hget. vm_compute in Hget.
    discriminate Hget.
Qed.

Lemma not_found_after_id_change users userId i (u u' : object) :
  first_with_id users userId i u →
  (∀ j w, j ≠ i → users !! j = Some w → ¬ id_is userId w) →
  ¬ id_is userId u' →
  no_user_with_id (<[i := u']> users) userId.
Proof.
  intros (Hi & _) Hothers Hu' j w Hj.
  apply list_lookup_insert_Some in Hj as [(-> & -> & _)|[Hne Hj]]; [done|].
  by eapply Hothers.
Qed.

(** C10, amended: the id is not protected.  When the body's id differs
    from the parsed path id, every matched update of [src/index.js], and
    every update of [part_000] that answers 200, writes the body's id into
    the record, and fetching the path id afterwards is answered with the
    404 error, provided no other record carries the path id. *)
Theorem update_overwrites_id (users : list object) (req : request) :
  ¬ id_is (parseInt (params_id req)) (new_object (body req)) →
  id_unprotected index_js.put_users_id index_js.get_users_id users req
  ∧ (status_of (part_000.put_users_id users req).2 = Some 200 →
     id_unprotected part_000.put_users_id part_000.get_users_id users req).
Proof.
  intros Hne.
  assert (∀ i u v,
            first_with_id users (parseInt (params_id req)) i u →
            body req !! "id" = Some v →
            (∀ j w, j ≠ i → users !! j = Some w →
                    ¬ id_is (parseInt (params_id req)) w) →
            let users' :=
              <[i := Object_assign u (new_object (body req))]> users in
            (∃ u', users' !! i = Some u' ∧ own u' !! "id" = Some v)
            ∧ no_user_with_id users' (parseInt (params_id req))) as Hmerge.
  { intros i u v Hf Hv Hothers users'.
    pose proof (Object_assign_present u (new_object (body req)) "id" v
                  ltac:(done) Hv) as Hown.
    split.
    - eexists. split; [|exact Hown].
      apply list_lookup_insert_eq. destruct Hf as [Hi _].
      by eapply lookup_lt_Some.
    - eapply not_found_after_id_change; [done..|].
      unfold id_is in *. rewrite (get_own _ _ _ Hown).
      by rewrite get_new_object, Hv in Hne. }
  split.
  - intros i u v Hf Hv Hothers. rewrite (index_js_put_merged _ _ _ _ Hf).
    cbv zeta. cbn [fst]. destruct (Hmerge i u v Hf Hv Hothers) as [Hrec Hnone].
    split; [done|]. by rewrite (index_js_get_not_found _ _ Hnone).
  - intros Hst i u v Hf Hv Hothers.
    destruct (name_differs (new_object (body req)) u) eqn:Hn.
    { rewrite (put_rejected _ _ _ _ Hf Hn) in Hst. discriminate Hst. }
    rewrite (put_merged _ _ _ _ Hf Hn). cbv zeta. cbn [fst].
    destruct (Hmerge i u v Hf Hv Hothers) as [Hrec Hnone].
    split; [done|]. by rewrite (part_000_get_not_found _ _ Hnone).
Qed.

Lemma update_overwrites_id_witness :
  let req := mkRequest "1" {[ "id" := Number 2 ]} in
  ¬ id_is (parseInt (params_id req)) (new_object (body req))
  ∧ status_of (part_000.put_users_id healthData req).2 = Some 200
  ∧ id_unprotected index_js.put_users_id index_js.get_users_id healthData req
  ∧ id_unprotected part_000.put_users_id part_000.get_users_id healthData req.
Proof.
  intros req.
  assert (¬ id_is (parseInt (params_id req)) (new_object (body req))) as Hne
    by exact id.
  split; [exact Hne|]. split; [reflexivity|].
  split.
  - exact (proj1 (update_overwrites_id healthData req Hne)).
  - exact (proj2 (update_overwrites_id healthData req Hne) eq_refl).
Defined.

(** After [PUT /users/1] with [{id: 2}], [GET /users/1] is answered 404
    and [GET /users/2] finds the record. *)
Example get_after_id_change :
  let users' :=
    (part_000.put_users_id healthData
       (mkRequest "1" {[ "id" := Number 2 ]})).1 in
  status_of (part_000.get_users_id users' (mkRequest "1" ∅)).2 = Some 404
  ∧ status_of (part_000.get_users_id users' (mkRequest "2" ∅)).2 = Some 200.
Proof. split; reflexivity. Qed.

(** ** Serving requests in sequence *)

Lemma serve_cons app users r req calls :
  serve app users ((r, req) :: calls)
  = ((serve app (app r users req).1 calls).1,
     (app r users req).2 :: (serve app (app r users req).1 calls).2).
Proof.
  simpl. destruct (app r users req) as [users1 res]. simpl.
  by destruct (serve app users1 calls).
Qed.

(** Only a record whose id is a number can carry a parsed id. *)
Lemma id_is_parseInt s u : id_is (parseInt s) u → has_number_id u.
Proof.
  unfold id_is, has_number_id.
  destruct (parseInt_cases s) as [->|[[n ->]|[b ->]]].
  - by rewrite strict_eq_NaN.
  - destruct (get u "id"); simpl; try done. eauto.
  - destruct (get u "id"); simpl; try done. eauto.
Qed.

(** The directory after an update of [src/index.js]. *)
Lemma index_js_put_directory users req :
  (index_js.put_users_id users req).1 = users
  ∨ ∃ i u,
      first_with_id users (parseInt (params_id req)) i u
      ∧ (index_js.put_users_id users req).1
        = <[i := Object_assign u (new_object (body req))]> users.
Proof.
  destruct (find_total users (parseInt (params_id req))) as [(i & u & H)|H].
  - right. exists i, u. by rewrite (index_js_put_merged _ _ _ _ H).
  - left. apply find_None in H. unfold index_js.put_users_id. by rewrite H.
Qed.

(** The directory after an update of [part_000]. *)
Lemma part_000_put_directory users req :
  (part_000.put_users_id users req).1 = users
  ∨ ∃ i u,
      first_with_id users (parseInt (params_id req)) i u
      ∧ name_differs (new_object (body req)) u = false
      ∧ (part_000.put_users_id users req).1
        = <[i := Object_assign u (new_object (body req))]> users.
Proof.
  destruct (put_cases users req)
    as [[_ E]|[(i & u & _ & _ & E)|(i & u & Hf & Hn & E)]]; rewrite E;
    [by left..|].
  right. by exists i, u.
Qed.

Lemma index_js_get_directory users req :
  (index_js.get_users_id users req).1 = users.
Proof. reflexivity. Qed.

Lemma part_000_get_directory users req :
  (part_000.get_users_id users req).1 = users.
Proof. unfold part_000.get_users_id. by destruct find as [[]|]. Qed.

Section keeps_records.
Context (R : object → object → Prop) (P : route * request → Prop).
Hypothesis R_refl : ∀ u, R u u.
Hypothesis R_trans : ∀ u1 u2 u3, R u1 u2 → R u2 u3 → R u1 u3.

Lemma keeps_records_refl users : keeps_records R users users.
Proof. intros j u Hj. eauto. Qed.

Lemma keeps_records_trans users1 users2 users3 :
  keeps_records R users1 users2 → keeps_records R users2 users3 →
  keeps_records R users1 users3.
Proof.
  intros H12 H23 j u Hj. destruct (H12 j u Hj) as (u2 & Hj2 & R12).
  destruct (H23 j u2 Hj2) as (u3 & Hj3 & R23). eauto.
Qed.

Lemma keeps_records_app users l : keeps_records R users (users ++ l).
Proof. intros j u Hj. exists u. split; [by apply lookup_app_l_Some|done]. Qed.

Lemma keeps_records_insert users i u u' :
  users !! i = Some u → R u u' → keeps_records R users (<[i := u']> users).
Proof.
  intros Hi Hu j v Hj. destruct (decide (i = j)) as [<-|Hne].
  - exists u'. split.
    + apply list_lookup_insert_eq. by eapply lookup_lt_Some.
    + congruence.
  - exists v. by rewrite list_lookup_insert_ne.
Qed.

(** What one request keeps, the requests served in sequence keep. *)
Lemma serve_keeps_records app :
  (∀ r users req, P (r, req) → keeps_records R users (app r users req).1) →
  ∀ calls users,
    Forall P calls → keeps_records R users (serve app users calls).1.
Proof.
  intros Happ calls.
  induction calls as [|[r req] calls IH]; intros users Hcalls.
  - apply keeps_records_refl.
  - apply Forall_cons in Hcalls as [Hc Hcalls]. rewrite serve_cons. simpl.
    eapply keeps_records_trans; [by apply Happ|]. by apply IH.
Qed.

Lemma index_js_app_keeps_records :
  (∀ s u req, P (PUT_users_id, req) → id_is (parseInt s) u →
              R u (Object_assign u (new_object (body req)))) →
  ∀ r users req,
    P (r, req) → keeps_records R users (index_js_app r users req).1.
Proof.
  clear R_trans. intros Hmerge [] users req HP; simpl.
  - apply keeps_records_refl.
  - apply keeps_records_refl.
  - apply keeps_records_app.
  - destruct (index_js_put_directory users req)
      as [->|(i & u & (Hi & Hid & _) & ->)].
    + apply keeps_records_refl.
    + eapply keeps_records_insert; [done|]. by eapply Hmerge.
Qed.

Lemma part_000_app_keeps_records :
  (∀ s u req, P (PUT_users_id, req) → id_is (parseInt s) u →
              name_differs (new_object (body req)) u = false →
              R u (Object_assign u (new_object (body req)))) →
  ∀ r users req,
    P (r, req) → keeps_records R users (part_000_app r users req).1.
Proof.
  clear R_trans. intros Hmerge [] users req HP; simpl.
  - apply keeps_records_refl.
  - rewrite part_000_get_directory. apply keeps_records_refl.
  - apply keeps_records_app.
  - destruct (part_000_put_directory users req)
      as [->|(i & u & (Hi & Hid & _) & Hn & ->)].
    + apply keeps_records_refl.
    + eapply keeps_records_insert; [done|]. by eapply Hmerge.
Qed.

End keeps_records.

Lemma strict_eq_true a b : strict_eq a b = true → a = b.
Proof.
  destruct a, b; simpl; try discriminate; try done.
  - by intros ->%eqb_prop.
  - by intros ->%eqb_prop.
  - by intros ->%Z.eqb_eq.
  - by intros ->%String.eqb_eq.
Qed.

Lemma same_unless_number_id_trans u1 u2 u3 :
  same_unless_number_id u1 u2 → same_unless_number_id u2 u3 →
  same_unless_number_id u1 u3.
Proof.
  intros H12 H23 Hn. rewrite <- (H12 Hn). apply H23. by rewrite (H12 Hn).
Qed.

Lemma name_kept_or_falsy_trans u1 u2 u3 :
  name_kept_or_falsy u1 u2 → name_kept_or_falsy u2 u3 →
  name_kept_or_falsy u1 u3.
Proof.
  unfold name_kept_or_falsy. intros [E12|F2] [E23|F3]; auto.
  - left. congruence.
  - right. by rewrite E23.
Qed.

(** The merge that the name test of [part_000] lets pass keeps the name
    or writes a falsy one, when the body has no [__proto__]. *)
Lemma name_kept_or_falsy_assign u (b : obj) :
  b !! "__proto__" = None →
  name_differs (new_object b) u = false →
  name_kept_or_falsy u (Object_assign u (new_object b)).
Proof.
  unfold name_differs, name_kept_or_falsy. intros Hp Hn.
  rewrite get_new_object in Hn.
  destruct (b !! "name") as [v|] eqn:Ev.
  - rewrite (get_assign_present u (new_object b) "name" v) by done.
    simpl in Hn.
    apply andb_false_iff in Hn as [Hf|Hd]; [by right|left].
    apply negb_false_iff in Hd. by apply strict_eq_true.
  - left. by apply (get_assign_absent u (new_object b)).
Qed.

Lemma properties_kept_assign u b : properties_kept u (Object_assign u b).
Proof. apply Object_assign_dom. Qed.

(** The directory of a running server: every request keeps
    [own_id_if_reparented] of all records, and the seeded directory has
    it. *)
Lemma own_id_if_reparented_assign s u b :
  own_id_if_reparented u → id_is (parseInt s) u →
  own_id_if_reparented (Object_assign u b).
Proof.
  intros Hu Hid. right.
  destruct (found_id_is_own s u Hu Hid) as [w Hw].
  apply elem_of_dom. apply (Object_assign_dom u b). apply elem_of_dom. eauto.
Qed.

Lemma app_keeps_own_id app r users req :
  app = index_js_app ∨ app = part_000_app →
  Forall own_id_if_reparented users →
  Forall own_id_if_reparented (app r users req).1.
Proof.
  intros Happ Hu.
  assert (∀ i u b, first_with_id users (parseInt (params_id req)) i u →
            Forall own_id_if_reparented (<[i := Object_assign u b]> users))
    as Hput.
  { intros i u b (Hi & Hid & _). apply Forall_insert; [done|].
    eapply own_id_if_reparented_assign; [|done].
    by eapply Forall_lookup_1. }
  assert (Forall own_id_if_reparented (post_users users req).1) as Hpost.
  { simpl. apply Forall_app. split; [done|]. repeat constructor. }
  destruct Happ as [-> | ->]; destruct r; simpl; try done.
  - destruct (index_js_put_directory users req) as [->|(i & u & Hf & ->)];
      eauto.
  - by rewrite part_000_get_directory.
  - destruct (part_000_put_directory users req)
      as [->|(i & u & Hf & _ & ->)]; eauto.
Qed.

Lemma serve_keeps_own_id app calls users :
  app = index_js_app ∨ app = part_000_app →
  Forall own_id_if_reparented users →
  Forall own_id_if_reparented (serve app users calls).1.
Proof.
  intros Happ. revert users.
  induction calls as [|[r req] calls IH]; intros users Hu; [done|].
  rewrite serve_cons. simpl. apply IH. by apply app_keeps_own_id.
Qed.

Lemma healthData_own_id : Forall own_id_if_reparented healthData.
Proof. repeat constructor. Qed.

(** X1. A record whose id is not a number is out of reach: whatever
    requests are served, by either file, it stays at its position as it
    is; no request finds it; and in the directory of a running server no
    fetch answers with it. *)
Theorem record_without_number_id_out_of_reach
    (calls : list (route * request)) (users : list object) (j : nat)
    (u : object) :
  users !! j = Some u →
  ¬ has_number_id u →
  (serve index_js_app users calls).1 !! j = Some u
  ∧ (serve part_000_app users calls).1 !! j = Some u
  ∧ (∀ req i v,
       first_with_id users (parseInt (params_id req)) i v → i ≠ j ∧ v ≠ u)
  ∧ (Forall own_id_if_reparented users →
     ∀ req,
       delivered (index_js.get_users_id users req).2
       ≠ Some (200, PObject (own u))
       ∧ delivered (part_000.get_users_id users req).2
         ≠ Some (200, PObject (own u))).
Proof.
  intros Hj Hn.
  assert (∀ u, same_unless_number_id u u) as Hrefl by (by intros ? ?).
  assert (∀ s u req, True → id_is (parseInt s) u →
            same_unless_number_id u
              (Object_assign u (new_object (body req)))) as Hmerge.
  { intros s v b _ Hid Hnv. destruct Hnv. by eapply id_is_parseInt. }
  assert (Forall (λ _ : route * request, True) calls) as Hcalls
    by (by apply Forall_true).
  split_and!.
  - destruct (serve_keeps_records _ (λ _, True) Hrefl
                same_unless_number_id_trans index_js_app
                (index_js_app_keeps_records _ _ Hrefl Hmerge)
                calls users Hcalls j u Hj)
      as (u' & Hu' & Hsame).
    by rewrite Hu', (Hsame Hn).
  - destruct (serve_keeps_records _ (λ _, True) Hrefl
                same_unless_number_id_trans part_000_app
                (part_000_app_keeps_records _ _ Hrefl
                   (λ s v req HP Hid _, Hmerge s v req HP Hid))
                calls users Hcalls j u Hj)
      as (u' & Hu' & Hsame).
    by rewrite Hu', (Hsame Hn).
  - intros req i v (Hi & Hid & _).
    assert (v ≠ u) as Hvu.
    { intros ->. apply Hn. by eapply id_is_parseInt. }
    split; [|done]. intros ->. congruence.
  - intros Hwf req.
    destruct (find_total users (parseInt (params_id req)))
      as [(i & v & Hf)|Hnone].
    + rewrite (index_js_get_found _ _ _ _ Hf), (part_000_get_found _ _ _ _ Hf).
      assert (own v ≠ own u) as Hvu.
      { intros E. destruct Hf as (Hi & Hid & _).
        destruct (found_id_is_own _ v (Forall_lookup_1 _ _ _ _ Hwf Hi) Hid)
          as [w Hw].
        apply Hn. pose proof (id_is_parseInt _ _ Hid) as Hnum.
        unfold has_number_id in *.
        rewrite (get_own v "id" w Hw) in Hnum. rewrite E in Hw.
        by rewrite (get_own u "id" w Hw). }
      split; intros [=]; done.
    + rewrite (index_js_get_not_found _ _ Hnone),
        (part_000_get_not_found _ _ Hnone).
      split; discriminate.
Qed.

Lemma record_without_number_id_out_of_reach_witness :
  let ann := new_object {[ "name" := Str "Ann" ]} in
  let users := healthData ++ [ann] in
  let calls :=
    [ (PUT_users_id, mkRequest "1" {[ "age" := Number 31 ]});
      (PUT_users_id, mkRequest "abc" {[ "name" := Str "Bob" ]});
      (POST_users, mkRequest "" {[ "id" := Number 2 ]}) ] in
  users !! 1 = Some ann
  ∧ ¬ has_number_id ann
  ∧ Forall own_id_if_reparented users
  ∧ (serve index_js_app users calls).1 !! 1 = Some ann
  ∧ (serve part_000_app users calls).1 !! 1 = Some ann
  ∧ (∀ req i v,
       first_with_id users (parseInt (params_id req)) i v → i ≠ 1 ∧ v ≠ ann)
  ∧ ∀ req,
      delivered (index_js.get_users_id users req).2
      ≠ Some (200, PObject (own ann))
      ∧ delivered (part_000.get_users_id users req).2
        ≠ Some (200, PObject (own ann)).
Proof.
  intros ann users calls.
  assert (¬ has_number_id ann) as Hn.
  { intros [[n H]|[b H]]; discriminate H. }
  assert (Forall own_id_if_reparented users) as Hwf.
  { repeat constructor. }
  split; [reflexivity|]. split; [exact Hn|]. split; [exact Hwf|].
  destruct (record_without_number_id_out_of_reach calls users 1 ann
              eq_refl Hn) as (H1 & H2 & H3 & H4).
  split; [exact H1|]. split; [exact H2|]. split; [exact H3|].
  exact (H4 Hwf).
Defined.

(** X2. In [part_000] no sequence of requests whose updates have no
    [__proto__] in the body gives a record another truthy name: the name
    of every record is the one it had, or a falsy value. *)
Theorem name_never_replaced_by_truthy
    (calls : list (route * request)) (users : list object) (j : nat)
    (u : object) :
  Forall plain_update calls →
  users !! j = Some u →
  ∃ u', (serve part_000_app users calls).1 !! j = Some u'
        ∧ name_kept_or_falsy u u'.
Proof.
  intros Hcalls Hj.
  assert (∀ u, name_kept_or_falsy u u) as Hrefl by (by left).
  apply (serve_keeps_records name_kept_or_falsy plain_update Hrefl
           name_kept_or_falsy_trans part_000_app); [|done..].
  apply part_000_app_keeps_records; [done|].
  intros s v req Hp _. apply name_kept_or_falsy_assign. by apply Hp.
Qed.

Lemma name_never_replaced_by_truthy_witness :
  let calls :=
    [ (PUT_users_id, mkRequest "1" {[ "name" := Str "" ]});
      (PUT_users_id, mkRequest "1" {[ "name" := Str "John Doe" ]}) ] in
  Forall plain_update calls
  ∧ healthData !! 0 = Some (healthData !!! 0)
  ∧ ∃ u', (serve part_000_app healthData calls).1 !! 0 = Some u'
          ∧ name_kept_or_falsy (healthData !!! 0) u'.
Proof.
  intros calls.
  assert (Forall plain_update calls) as Hcalls.
  { repeat constructor. }
  split; [exact Hcalls|]. split; [reflexivity|].
  exact (name_never_replaced_by_truthy calls healthData 0 (healthData !!! 0)
           Hcalls eq_refl).
Defined.

(** The name emptied by the first request is not restored by the
    second, which is refused. *)
Example emptied_name_stays_empty :
  let calls :=
    [ (PUT_users_id, mkRequest "1" {[ "name" := Str "" ]});
      (PUT_users_id, mkRequest "1" {[ "name" := Str "John Doe" ]}) ] in
  let r := serve part_000_app healthData calls in
  (λ u, get u "name") <$> r.1 = [Str ""]
  ∧ status_of <$> r.2 = [Some 200; Some 400].
Proof. split; reflexivity. Qed.

(** With [__proto__] in the body of an update the name can be replaced:
    a record created without a name inherits one from the prototype it is
    given, and the update that sends this name passes the test. *)
Example name_through_prototype :
  let calls :=
    [ (POST_users, mkRequest "" {[ "id" := Number 2 ]});
      (PUT_users_id,
       mkRequest "2" {[ "__proto__" := Object [("name", Str "Eve")] ]});
      (PUT_users_id, mkRequest "2" {[ "name" := Str "Eve" ]}) ] in
  let r := serve part_000_app healthData calls in
  status_of <$> r.2 = [Some 201; Some 200; Some 200]
  ∧ (λ u, get u "name") <$> r.1 = [Str "John Doe"; Str "Eve"]
  ∧ (λ u, own u !! "name") <$> r.1 = [Some (Str "John Doe"); Some (Str "Eve")].
Proof. split_and!; reflexivity. Qed.

(** X3. Under either file, no sequence of requests removes a record or a
    property of a record: every record stays at its position and keeps
    every property name it had. *)
Theorem records_and_properties_never_removed
    (calls : list (route * request)) (users : list object) (j : nat)
    (u : object) :
  users !! j = Some u →
  (∃ u', (serve index_js_app users calls).1 !! j = Some u'
         ∧ properties_kept u u')
  ∧ (∃ u', (serve part_000_app users calls).1 !! j = Some u'
           ∧ properties_kept u u').
Proof.
  intros Hj.
  assert (∀ u, properties_kept u u) as Hrefl.
  { unfold properties_kept. set_solver. }
  assert (∀ u1 u2 u3, properties_kept u1 u2 → properties_kept u2 u3 →
                      properties_kept u1 u3) as Htrans.
  { unfold properties_kept. set_solver. }
  assert (Forall (λ _ : route * request, True) calls) as Hcalls
    by (by apply Forall_true).
  split.
  - apply (serve_keeps_records properties_kept (λ _, True) Hrefl Htrans
             index_js_app); [|done..].
    apply (index_js_app_keeps_records properties_kept (λ _, True) Hrefl).
    intros s v req _ _. apply properties_kept_assign.
  - apply (serve_keeps_records properties_kept (λ _, True) Hrefl Htrans
             part_000_app); [|done..].
    apply (part_000_app_keeps_records properties_kept (λ _, True) Hrefl).
    intros s v req _ _ _. apply properties_kept_assign.
Qed.

Lemma records_and_properties_never_removed_witness :
  let calls :=
    [ (PUT_users_id, mkRequest "1" {[ "bmi" := Number 23 ]});
      (POST_users, mkRequest "" {[ "id" := Number 2 ]}) ] in
  healthData !! 0 = Some (healthData !!! 0)
  ∧ (∃ u', (serve index_js_app healthData calls).1 !! 0 = Some u'
           ∧ properties_kept (healthData !!! 0) u')
  ∧ (∃ u', (serve part_000_app healthData calls).1 !! 0 = Some u'
           ∧ properties_kept (healthData !!! 0) u').
Proof.
  intros calls. split; [reflexivity|].
  exact (records_and_properties_never_removed calls healthData 0
           (healthData !!! 0) eq_refl).
Defined.

Lemma index_js_app_length r users req :
  length (index_js_app r users req).1
  = length users + (if is_POST r then 1 else 0).
Proof.
  destruct r; simpl; rewrite ?length_app; simpl; try lia.
  destruct (index_js_put_directory users req) as [->|(i & u & _ & ->)];
    rewrite ?length_insert; lia.
Qed.

Lemma part_000_app_length r users req :
  length (part_000_app r users req).1
  = length users + (if is_POST r then 1 else 0).
Proof.
  destruct r; simpl; rewrite ?length_app, ?part_000_get_directory;
    simpl; try lia.
  destruct (part_000_put_directory users req) as [->|(i & u & _ & _ & ->)];
    rewrite ?length_insert; lia.
Qed.

Lemma serve_length app :
  (∀ r users req,
     length (app r users req).1 = length users + (if is_POST r then 1 else 0)) →
  ∀ calls users,
    length (serve app users calls).1
    = length users + length (filter (λ c, is_POST c.1) calls)
    ∧ length (serve app users calls).2 = length calls.
Proof.
  intros Happ calls. induction calls as [|[r req] calls IH]; intros users.
  - simpl. split; [lia|done].
  - rewrite serve_cons. simpl. destruct (IH (app r users req).1) as [-> ->].
    rewrite Happ. split; [|done].
    rewrite filter_cons. simpl. destruct (is_POST r); simpl; lia.
Qed.

(** X4. Under either file the directory grows by exactly one record for
    each creation request served and by nothing else, and every request
    served leaves one response object. *)
Theorem directory_grows_by_creations
    (calls : list (route * request)) (users : list object) :
  let created := length (filter (λ c, is_POST c.1) calls) in
  length (serve index_js_app users calls).1 = length users + created
  ∧ length (serve part_000_app users calls).1 = length users + created
  ∧ length (serve index_js_app users calls).2 = length calls
  ∧ length (serve part_000_app users calls).2 = length calls.
Proof.
  intros created.
  destruct (serve_length index_js_app index_js_app_length calls users).
  destruct (serve_length part_000_app part_000_app_length calls users).
  done.
Qed.

Lemma serve_read_only app :
  (∀ r users req, is_GET r → (app r users req).1 = users) →
  ∀ calls users,
    Forall (λ c, is_GET c.1) calls → (serve app users calls).1 = users.
Proof.
  intros Happ calls. induction calls as [|[r req] calls IH]; intros users Hc.
  - done.
  - apply Forall_cons in Hc as [Hr Hc]. rewrite serve_cons. simpl.
    rewrite (Happ r users req Hr). by apply IH.
Qed.

(** X5. Under either file a sequence of listing and fetching requests,
    whether the ids are found or not, leaves the directory as it was. *)
Theorem reading_never_changes_directory
    (calls : list (route * request)) (users : list object) :
  Forall (λ c, is_GET c.1) calls →
  (serve index_js_app users calls).1 = users
  ∧ (serve part_000_app users calls).1 = users.
Proof.
  intros Hc. split; apply serve_read_only; try done.
  - by intros [] ? ? ?.
  - intros [] ? ? ?; try done. apply part_000_get_directory.
Qed.

Lemma reading_never_changes_directory_witness :
  let calls :=
    [ (GET_users, mkRequest "" ∅); (GET_users_id, mkRequest "1" ∅);
      (GET_users_id, mkRequest "999" ∅); (GET_users_id, mkRequest "abc" ∅) ] in
  Forall (λ c, is_GET c.1) calls
  ∧ (serve index_js_app healthData calls).1 = healthData
  ∧ (serve part_000_app healthData calls).1 = healthData.
Proof.
  intros calls.
  assert (Forall (λ c, is_GET c.1) calls) as Hc.
  { repeat constructor. }
  split; [exact Hc|].
  exact (reading_never_changes_directory calls healthData Hc).
Defined.

(** ** Creating, then fetching or updating *)

Lemma first_with_id_unique users userId i u i' u' :
  first_with_id users userId i u → first_with_id users userId i' u' →
  i' = i ∧ u' = u.
Proof.
  intros H%find_Some H'%find_Some. rewrite H in H'. by injection H' as <- <-.
Qed.

(** A record appended after a match does not take its place. *)
Lemma first_with_id_app users l userId i u :
  first_with_id users userId i u → first_with_id (users ++ l) userId i u.
Proof.
  intros (Hi & Hid & Hfirst). split_and!; [by apply lookup_app_l_Some|done|].
  intros j v Hj Hlt. apply (Hfirst j v); [|done].
  apply lookup_lt_Some in Hi.
  by rewrite lookup_app_l in Hj by lia.
Qed.

(** A record appended where none matches is the first match, if it
    carries the id. *)
Lemma first_with_id_appended users userId b :
  no_user_with_id users userId → id_is userId b →
  first_with_id (users ++ [b]) userId (length users) b.
Proof.
  intros Hnone Hid. split_and!; [by apply list_lookup_middle|done|].
  intros j v Hj Hlt. rewrite lookup_app_l in Hj by done. by eapply Hnone.
Qed.

(** X6. A record created under an id that no record carried is what a
    fetch of that id answers next, in either file. *)
Theorem created_record_is_fetched (users : list object) (req greq : request) :
  no_user_with_id users (parseInt (params_id greq)) →
  id_is (parseInt (params_id greq)) (new_object (body req)) →
  let users' := (post_users users req).1 in
  part_000.get_users_id users' greq
  = (users', mkResponse 200 [(200, PObject (body req))])
  ∧ index_js.get_users_id users' greq
    = (users', mkResponse 200 [(200, PObject (body req))]).
Proof.
  intros Hnone Hid users'.
  pose proof (first_with_id_appended _ _ _ Hnone Hid) as Hf.
  split.
  - exact (part_000_get_found _ _ _ _ Hf).
  - exact (index_js_get_found _ _ _ _ Hf).
Qed.

Lemma created_record_is_fetched_witness :
  let jane : obj := {[ "id" := Number 2; "name" := Str "Jane" ]} in
  let req := mkRequest "" jane in
  let greq := mkRequest "2" ∅ in
  let users' := healthData ++ [new_object jane] in
  no_user_with_id healthData (parseInt (params_id greq))
  ∧ id_is (parseInt (params_id greq)) (new_object (body req))
  ∧ part_000.get_users_id users' greq
    = (users', mkResponse 200 [(200, PObject jane)])
  ∧ index_js.get_users_id users' greq
    = (users', mkResponse 200 [(200, PObject jane)]).
Proof.
  intros jane req greq users'.
  assert (no_user_with_id healthData (parseInt (params_id greq))) as Hnone.
  { intros [|[|j]] v Hv; [|discriminate Hv..]. injection Hv as <-. exact id. }
  split; [exact Hnone|]. split; [exact I|].
  exact (created_record_is_fetched healthData req greq Hnone I).
Defined.

(** X7. Creating a record never changes which record an id already in
    the directory resolves to: a fetch of that id answers the record it
    answered before, and an update through that id leaves the created
    record, even one created with the same id, as it was posted. *)
Theorem created_duplicate_is_shadowed
    (users : list object) (req greq : request) (i : nat) (u : object) :
  first_with_id users (parseInt (params_id greq)) i u →
  let users' := (post_users users req).1 in
  part_000.get_users_id users' greq
  = (users', mkResponse 200 [(200, PObject (own u))])
  ∧ index_js.get_users_id users' greq
    = (users', mkResponse 200 [(200, PObject (own u))])
  ∧ (part_000.put_users_id users' greq).1 !! length users
    = Some (new_object (body req))
  ∧ (index_js.put_users_id users' greq).1 !! length users
    = Some (new_object (body req)).
Proof.
  intros Hf users'.
  pose proof (first_with_id_app _ [new_object (body req)] _ _ _ Hf) as Hf'.
  assert (i ≠ length users) as Hi.
  { destruct Hf as [Hi%lookup_lt_Some _]. lia. }
  assert (users' !! length users = Some (new_object (body req))) as Hnew
    by apply list_lookup_middle, eq_refl.
  split_and!.
  - exact (part_000_get_found _ _ _ _ Hf').
  - exact (index_js_get_found _ _ _ _ Hf').
  - destruct (part_000_put_directory users' greq)
      as [->|(i' & u' & Hf2 & _ & ->)]; [done|].
    destruct (first_with_id_unique _ _ _ _ _ _ Hf' Hf2) as [-> _].
    by rewrite list_lookup_insert_ne.
  - destruct (index_js_put_directory users' greq)
      as [->|(i' & u' & Hf2 & ->)]; [done|].
    destruct (first_with_id_unique _ _ _ _ _ _ Hf' Hf2) as [-> _].
    by rewrite list_lookup_insert_ne.
Qed.

Lemma created_duplicate_is_shadowed_witness :
  let twin : obj := {[ "id" := Number 1; "name" := Str "Twin" ]} in
  let req := mkRequest "" twin in
  let greq := mkRequest "1" {[ "age" := Number 31 ]} in
  let users' := healthData ++ [new_object twin] in
  first_with_id healthData (parseInt (params_id greq)) 0 (healthData !!! 0)
  ∧ part_000.get_users_id users' greq
    = (users', mkResponse 200 [(200, PObject (own (healthData !!! 0)))])
  ∧ index_js.get_users_id users' greq
    = (users', mkResponse 200 [(200, PObject (own (healthData !!! 0)))])
  ∧ (part_000.put_users_id users' greq).1 !! 1 = Some (new_object twin)
  ∧ (index_js.put_users_id users' greq).1 !! 1 = Some (new_object twin).
Proof.
  intros twin req greq users'. split; [exact seed_is_first|].
  exact (created_duplicate_is_shadowed healthData req greq 0
           (healthData !!! 0) seed_is_first).
Defined.

(** ** The update of src/index.js, and the two files side by side *)

(** The two outcomes of the update of [src/index.js]. *)
Lemma index_js_put_cases users req :
  (no_user_with_id users (parseInt (params_id req))
   ∧ index_js.put_users_id users req
     = (users, mkResponse 404 [(404, error "User not found")]))
  ∨ (∃ i u,
       first_with_id users (parseInt (params_id req)) i u
       ∧ index_js.put_users_id users req
         = (<[i := Object_assign u (new_object (body req))]> users,
            mkResponse 200
              [(200,
                PObject (own (Object_assign u (new_object (body req)))))])).
Proof.
  destruct (find_total users (parseInt (params_id req)))
    as [(i & u & Hf)|Hnone].
  - right. exists i, u. split; [done|]. by apply index_js_put_merged.
  - left. split; [done|]. apply find_None in Hnone.
    unfold index_js.put_users_id. by rewrite Hnone.
Qed.

(** X8. The update of [src/index.js] has two outcomes and never refuses
    a body: when no record carries the parsed id it answers the 404 error
    and leaves the directory; otherwise it answers 200 with the first
    such record merged with the body, the body's name included, and
    changes no other position.  Merged means: every field of the body
    other than [__proto__] is a property of the record with the body's
    value, every property the body does not name is as it was, and the
    prototype is as it was when the body has no [__proto__]. *)
Theorem index_js_update_outcomes (users : list object) (req : request) :
  let userId := parseInt (params_id req) in
  (no_user_with_id users userId
   ∧ index_js.put_users_id users req
     = (users, mkResponse 404 [(404, error "User not found")]))
  ∨ (∃ i u u',
       first_with_id users userId i u
       ∧ index_js.put_users_id users req
         = (<[i := u']> users, mkResponse 200 [(200, PObject (own u'))])
       ∧ (<[i := u']> users) !! i = Some u'
       ∧ (∀ k v, k ≠ "__proto__" → body req !! k = Some v →
                 own u' !! k = Some v)
       ∧ (∀ v, body req !! "name" = Some v → get u' "name" = v)
       ∧ (∀ k, body req !! k = None → own u' !! k = own u !! k)
       ∧ (body req !! "__proto__" = None → proto u' = proto u)
       ∧ (∀ j, j ≠ i → (<[i := u']> users) !! j = users !! j)).
Proof.
  intros userId.
  destruct (index_js_put_cases users req) as [H|(i & u & Hf & E)];
    [by left|right].
  exists i, u, (Object_assign u (new_object (body req))).
  split_and!; [done|done| | | | | |].
  - apply list_lookup_insert_eq. destruct Hf as [Hi _].
    by eapply lookup_lt_Some.
  - intros k v Hk Hv.
    exact (Object_assign_present u (new_object (body req)) k v Hk Hv).
  - intros v Hv.
    by apply (get_assign_present u (new_object (body req)) "name" v).
  - intros k Hk. exact (Object_assign_absent u (new_object (body req)) k Hk).
  - intros Hp. by rewrite (Object_assign_plain u (new_object (body req))).
  - intros j Hj. by apply list_lookup_insert_ne.
Qed.

(** X9. The two files answer a request differently in two cases only.
    Fetching gives the same directory and the same delivered response.
    Updating gives the same directory and response object, except where
    [part_000] refuses a truthy, different name with 400 and
    [src/index.js] merges the body and answers 200. *)
Theorem files_differ_by_name_refusal (users : list object) (req : request) :
  (index_js.get_users_id users req).1 = (part_000.get_users_id users req).1
  ∧ delivered (index_js.get_users_id users req).2
    = delivered (part_000.get_users_id users req).2
  ∧ (index_js.put_users_id users req = part_000.put_users_id users req
     ∨ ∃ i u,
         first_with_id users (parseInt (params_id req)) i u
         ∧ name_differs (new_object (body req)) u = true
         ∧ part_000.put_users_id users req
           = (users,
              mkResponse 400 [(400, error "User name cannot be changed")])
         ∧ index_js.put_users_id users req
           = (<[i := Object_assign u (new_object (body req))]> users,
              mkResponse 200
                [(200,
                  PObject (own (Object_assign u (new_object (body req)))))])).
Proof.
  split_and!.
  - by rewrite part_000_get_directory.
  - destruct (find_total users (parseInt (params_id req)))
      as [(i & u & Hf)|Hnone].
    + by rewrite (index_js_get_found _ _ _ _ Hf),
        (part_000_get_found _ _ _ _ Hf).
    + by rewrite (index_js_get_not_found _ _ Hnone),
        (part_000_get_not_found _ _ Hnone).
  - destruct (put_cases users req)
      as [[Hnone E]|[(i & u & Hf & Hn & E)|(i & u & Hf & Hn & E)]].
    + left. rewrite E. apply find_None in Hnone.
      unfold index_js.put_users_id. by rewrite Hnone.
    + right. exists i, u. split_and!; try done.
      by apply index_js_put_merged.
    + left. rewrite E. by apply index_js_put_merged.
Qed.

(** ** Updating, then fetching or updating again *)

(** The record an update found carries the path id after the merge, when
    the body has no id or the id of the path, and either the body has no
    [__proto__] or the record has an id of its own. *)
Lemma id_kept_by_update users req i u :
  body req !! "__proto__" = None ∨ Forall own_id_if_reparented users →
  body req !! "id" = None
  ∨ id_is (parseInt (params_id req)) (new_object (body req)) →
  first_with_id users (parseInt (params_id req)) i u →
  id_is (parseInt (params_id req)) (Object_assign u (new_object (body req))).
Proof.
  intros [Hp|Hwf] Hid (Hi & Hu & _).
  - by apply id_kept_by_assign.
  - apply own_id_kept_by_assign; [|done..].
    eapply found_id_is_own; [|done]. by eapply Forall_lookup_1.
Qed.

(** X10. After an update answered 200 with a body that has no id, or
    the id of the path, a fetch of the same path answers exactly what the
    update answered and finds the directory the update left, in either
    file.  The body has no [__proto__], or the directory is one in which
    every record that was given a prototype has an id of its own, as in
    every directory the server reaches. *)
Theorem updated_record_is_fetched (users : list object) (req : request) :
  body req !! "__proto__" = None ∨ Forall own_id_if_reparented users →
  body req !! "id" = None
  ∨ id_is (parseInt (params_id req)) (new_object (body req)) →
  (status_of (part_000.put_users_id users req).2 = Some 200 →
   part_000.get_users_id (part_000.put_users_id users req).1 req
   = part_000.put_users_id users req)
  ∧ (status_of (index_js.put_users_id users req).2 = Some 200 →
     index_js.get_users_id (index_js.put_users_id users req).1 req
     = index_js.put_users_id users req).
Proof.
  intros Hp Hid. split; intros Hst.
  - destruct (put_cases users req)
      as [[_ E]|[(i & u & _ & _ & E)|(i & u & Hf & Hn & E)]];
      rewrite E in *; try discriminate Hst.
    cbn [fst]. eapply part_000_get_found, first_with_id_insert; [done|].
    by eapply id_kept_by_update.
  - destruct (index_js_put_cases users req)
      as [[_ E]|(i & u & Hf & E)]; rewrite E in *; try discriminate Hst.
    cbn [fst]. eapply index_js_get_found, first_with_id_insert; [done|].
    by eapply id_kept_by_update.
Qed.

Lemma updated_record_is_fetched_witness :
  let req := mkRequest "1" {[ "__proto__" := Null; "age" := Number 31 ]} in
  (body req !! "__proto__" = None ∨ Forall own_id_if_reparented healthData)
  ∧ (body req !! "id" = None
     ∨ id_is (parseInt (params_id req)) (new_object (body req)))
  ∧ status_of (part_000.put_users_id healthData req).2 = Some 200
  ∧ status_of (index_js.put_users_id healthData req).2 = Some 200
  ∧ part_000.get_users_id (part_000.put_users_id healthData req).1 req
    = part_000.put_users_id healthData req
  ∧ index_js.get_users_id (index_js.put_users_id healthData req).1 req
    = index_js.put_users_id healthData req.
Proof.
  intros req.
  assert (body req !! "__proto__" = None
          ∨ Forall own_id_if_reparented healthData) as Hp
    by (right; exact healthData_own_id).
  assert (body req !! "id" = None
          ∨ id_is (parseInt (params_id req)) (new_object (body req))) as Hid
    by (left; reflexivity).
  split; [exact Hp|]. split; [exact Hid|].
  split; [reflexivity|]. split; [reflexivity|]. split.
  - exact (proj1 (updated_record_is_fetched healthData req Hp Hid) eq_refl).
  - exact (proj2 (updated_record_is_fetched healthData req Hp Hid) eq_refl).
Defined.

(** A record that has its id from a prototype, which no sequence of
    requests builds, loses it with the prototype: the update answers 200
    and the fetch after it 404. *)
Example inherited_id_goes_with_prototype :
  let u := mkObject ∅ (ProtoValue (Object [("id", Number 1)])) in
  let req := mkRequest "1" {[ "__proto__" := Null ]} in
  let r := part_000.put_users_id [u] req in
  ¬ own_id_if_reparented u
  ∧ status_of r.2 = Some 200
  ∧ status_of (part_000.get_users_id r.1 req).2 = Some 404.
Proof.
  intros u req r. split; [|split; reflexivity].
  intros [H|[v H]]; discriminate H.
Qed.

(** X11. Repeating an update of [src/index.js] whose body has no
    [__proto__], and no id or the id of the path, gives the same response
    and leaves the directory of the first run, whatever the first run
    answered. *)
Theorem index_js_update_repeatable (users : list object) (req : request) :
  body req !! "__proto__" = None →
  body req !! "id" = None
  ∨ id_is (parseInt (params_id req)) (new_object (body req)) →
  index_js.put_users_id (index_js.put_users_id users req).1 req
  = index_js.put_users_id users req.
Proof.
  intros Hp Hid.
  destruct (index_js_put_cases users req) as [[_ E]|(i & u & Hf & E)].
  - rewrite E. cbn [fst]. by rewrite E.
  - rewrite E. cbn [fst].
    rewrite (index_js_put_merged _ _ i
               (Object_assign u (new_object (body req)))).
    + by rewrite Object_assign_twice, list_insert_insert_eq.
    + apply (first_with_id_insert _ _ _ u); [done|].
      eapply id_kept_by_update; [by left|done..].
Qed.

Lemma index_js_update_repeatable_witness :
  let req := mkRequest "1" {[ "id" := Number 1; "name" := Str "J. Doe" ]} in
  body req !! "__proto__" = None
  ∧ (body req !! "id" = None
     ∨ id_is (parseInt (params_id req)) (new_object (body req)))
  ∧ index_js.put_users_id (index_js.put_users_id healthData req).1 req
    = index_js.put_users_id healthData req.
Proof.
  intros req.
  assert (body req !! "id" = None
          ∨ id_is (parseInt (params_id req)) (new_object (body req))) as Hid
    by (right; exact I).
  split; [reflexivity|]. split; [exact Hid|].
  exact (index_js_update_repeatable healthData req eq_refl Hid).
Defined.

(** With [{__proto__: null}] the second run of the update of
    [src/index.js] differs from the first: it finds no setter and writes a
    sixth property. *)
Example index_js_update_null_prototype_twice :
  let req := mkRequest "1" {[ "__proto__" := Null ]} in
  let r1 := index_js.put_users_id healthData req in
  let r2 := index_js.put_users_id r1.1 req in
  (λ u, size (own u)) <$> r1.1 = [5]
  ∧ (λ u, size (own u)) <$> r2.1 = [6]
  ∧ (λ u, own u !! "__proto__") <$> r2.1 = [Some Null].
Proof. split_and!; reflexivity. Qed.

(** X12. Every handler calls [send] or [json] exactly once per request,
    with one exception: the fetch of [src/index.js] calls twice when no
    record carries the parsed id, first with the 404 error and then,
    under the status 200, with no record.  The statuses delivered are 200
    for a list, 201 for a creation, 200 or 404 for a fetch, 200 or 404 for
    an update of [src/index.js] and 200, 400 or 404 for one of
    [part_000]. *)
Theorem sends_per_request (users : list object) (req : request) :
  sends (get_users users req).2 = [(200, PArray (own <$> users))]
  ∧ sends (post_users users req).2 = [(201, PObject (body req))]
  ∧ (∃ p, sends (part_000.get_users_id users req).2 = [(200, p)]
          ∨ sends (part_000.get_users_id users req).2 = [(404, p)])
  ∧ (∃ p, sends (part_000.put_users_id users req).2 = [(200, p)]
          ∨ sends (part_000.put_users_id users req).2 = [(400, p)]
          ∨ sends (part_000.put_users_id users req).2 = [(404, p)])
  ∧ (∃ p, sends (index_js.put_users_id users req).2 = [(200, p)]
          ∨ sends (index_js.put_users_id users req).2 = [(404, p)])
  ∧ ((∃ i u, first_with_id users (parseInt (params_id req)) i u
             ∧ sends (index_js.get_users_id users req).2
               = [(200, PObject (own u))])
     ∨ (no_user_with_id users (parseInt (params_id req))
        ∧ sends (index_js.get_users_id users req).2
          = [(404, error "User not found"); (200, PUndefined)]
        ∧ delivered (index_js.get_users_id users req).2
          = Some (404, error "User not found"))).
Proof.
  split_and!; [done|done| | | |].
  - destruct (find_total users (parseInt (params_id req)))
      as [(i & u & Hf)|Hnone].
    + rewrite (part_000_get_found _ _ _ _ Hf). eauto.
    + rewrite (part_000_get_not_found _ _ Hnone). eauto.
  - destruct (put_cases users req)
      as [[_ E]|[(i & u & _ & _ & E)|(i & u & _ & _ & E)]]; rewrite E;
      simpl; eauto.
  - destruct (index_js_put_cases users req) as [[_ E]|(i & u & _ & E)];
      rewrite E; simpl; eauto.
  - destruct (find_total users (parseInt (params_id req)))
      as [(i & u & Hf)|Hnone].
    + left. exists i, u. by rewrite (index_js_get_found _ _ _ _ Hf).
    + right. by rewrite (index_js_get_not_found _ _ Hnone).
Qed.

(** ** Text after the number in the path *)

(** X13. Text after the number in the path is not read: when the path
    id parses to a number, the same id followed by a character that is
    neither a letter nor a digit, and anything after it, is served by
    every fetch and update handler exactly as the id alone. *)
Theorem text_after_id_is_ignored
    (users : list object) (s : string) (c : ascii) (t : string) (b : obj)
    (n : Z) :
  parseInt s = Number n →
  digit_value c = None →
  let req := mkRequest s b in
  let req' := mkRequest (s +:+ String c t) b in
  part_000.get_users_id users req' = part_000.get_users_id users req
  ∧ part_000.put_users_id users req' = part_000.put_users_id users req
  ∧ index_js.get_users_id users req' = index_js.get_users_id users req
  ∧ index_js.put_users_id users req' = index_js.put_users_id users req.
Proof.
  intros Hs Hc req req'.
  assert (parseInt (s +:+ String c t) = parseInt s) as Hs'.
  { apply parseInt_suffix; [by rewrite Hs|done]. }
  unfold part_000.get_users_id, part_000.put_users_id,
    index_js.get_users_id, index_js.put_users_id, req, req'. cbn [params_id body].
  by rewrite Hs'.
Qed.

Lemma text_after_id_is_ignored_witness :
  let req := mkRequest "1" ∅ in
  let req' := mkRequest "1.json" ∅ in
  parseInt "1" = Number 1
  ∧ digit_value "."%char = None
  ∧ part_000.get_users_id healthData req' = part_000.get_users_id healthData req
  ∧ part_000.put_users_id healthData req' = part_000.put_users_id healthData req
  ∧ index_js.get_users_id healthData req' = index_js.get_users_id healthData req
  ∧ index_js.put_users_id healthData req' = index_js.put_users_id healthData req.
Proof.
  intros req req'. split; [reflexivity|]. split; [reflexivity|].
  exact (text_after_id_is_ignored healthData "1" "."%char "json" ∅ 1
           eq_refl eq_refl).
Defined.

(** ** Creations in sequence *)

Lemma serve_creations app :
  (∀ users req, app POST_users users req = post_users users req) →
  ∀ calls users,
    Forall (λ c, is_POST c.1) calls →
    (serve app users calls).1
    = users ++ ((λ c, new_object (body c.2)) <$> calls).
Proof.
  intros Happ calls. induction calls as [|[r req] calls IH]; intros users Hc.
  - simpl. by rewrite app_nil_r.
  - apply Forall_cons in Hc as [Hr Hc]. destruct r; try done.
    rewrite serve_cons, Happ. cbn [fst]. rewrite (IH _ Hc).
    simpl. by rewrite <- app_assoc.
Qed.

(** X14. Under either file, creation requests served in sequence leave
    the directory they found followed by their bodies, in the order of
    the requests and whatever the bodies hold. *)
Theorem creations_keep_request_order
    (calls : list (route * request)) (users : list object) :
  Forall (λ c, is_POST c.1) calls →
  (serve index_js_app users calls).1
  = users ++ ((λ c, new_object (body c.2)) <$> calls)
  ∧ (serve part_000_app users calls).1
    = users ++ ((λ c, new_object (body c.2)) <$> calls).
Proof. intros Hc. split; by apply serve_creations. Qed.

Lemma creations_keep_request_order_witness :
  let jane : obj := {[ "id" := Number 2; "name" := Str "Jane" ]} in
  let twin : obj := {[ "id" := Number 2 ]} in
  let calls :=
    [ (POST_users, mkRequest "" jane); (POST_users, mkRequest "" ∅);
      (POST_users, mkRequest "" twin) ] in
  Forall (λ c, is_POST c.1) calls
  ∧ (serve index_js_app healthData calls).1
    = healthData ++ [new_object jane; new_object ∅; new_object twin]
  ∧ (serve part_000_app healthData calls).1
    = healthData ++ [new_object jane; new_object ∅; new_object twin].
Proof.
  intros jane twin calls.
  assert (Forall (λ c, is_POST c.1) calls) as Hc.
  { repeat constructor. }
  split; [exact Hc|].
  exact (creations_keep_request_order calls healthData Hc).
Defined.
